(** * transcribe: media transcription service

    A shallow embedding of the request pipeline ([routes/transcribe.js]),
    the file helpers ([utils/fileUtils.js]), the audio helpers
    ([utils/audioUtils.js]), the provider wrappers ([utils/openaiUtils.js])
    and the frame pipeline ([utils/videoUtils.js]).

    Conventions.
    - JavaScript numbers are exact rationals ([Q]) or integers ([Z]);
      rounding of IEEE doubles is outside the model.
    - JavaScript strings are [string] (bytes); [toLowerCase] is the ASCII
      case mapping.
    - Calls that leave the process (HTTP download, ffmpeg, ffprobe, the
      model provider, the clock, the random source) are inputs of the
      model: every function takes the outcome of the calls it makes.
    - An exception is a value of [JsError]; code that can throw returns
      [JsError + A]. *)

From Stdlib Require Import ZArith QArith Qround Qminmax Ascii String List Bool Lia.
From stdpp Require Import base option list strings gmap.

Local Open Scope string_scope.

(** ** JavaScript and Node built-ins used by the sources *)

Module Js.

(** [String.prototype.toLowerCase], on ASCII. *)
Definition lower_ascii (c : ascii) : ascii :=
  let n := nat_of_ascii c in
  if (65 <=? n)%nat && (n <=? 90)%nat then ascii_of_nat (n + 32) else c.

Fixpoint toLowerCase (s : string) : string :=
  match s with
  | EmptyString => EmptyString
  | String c s' => String (lower_ascii c) (toLowerCase s')
  end.

(** [s.startsWith(t)]. *)
Fixpoint startsWith (s t : string) : bool :=
  match t, s with
  | EmptyString, _ => true
  | String _ _, EmptyString => false
  | String b t', String a s' => if Ascii.eqb a b then startsWith s' t' else false
  end.

(** [s.includes(t)]: [t] occurs in [s] at some position. *)
Fixpoint includes (s t : string) : bool :=
  startsWith s t ||
  match s with
  | EmptyString => false
  | String _ s' => includes s' t
  end.

(** [Array.prototype.includes] on an array of strings. *)
Definition array_includes (l : list string) (x : string) : bool :=
  existsb (String.eqb x) l.

(** Truthiness of a string value that may be [null]. *)
Definition truthy (o : option string) : bool :=
  match o with
  | Some (String _ _) => true
  | _ => false
  end.

(** *** [path.extname] (POSIX)

    The scan of Node's implementation: the path is read from its last
    character to its first; [i] is the index of the character read. *)

Record ExtScan := {
  startDot : Z;
  startPart : Z;
  end_ : Z;
  matchedSlash : bool;
  preDotState : Z
}.

Definition ext_init : ExtScan :=
  {| startDot := -1; startPart := 0; end_ := -1;
     matchedSlash := true; preDotState := 0 |}.

Definition mark_end (i : Z) (st : ExtScan) : ExtScan :=
  if (end_ st =? -1)%Z
  then {| startDot := startDot st; startPart := startPart st; end_ := i + 1;
          matchedSlash := false; preDotState := preDotState st |}
  else st.

Definition see_dot (i : Z) (st : ExtScan) : ExtScan :=
  if (startDot st =? -1)%Z
  then {| startDot := i; startPart := startPart st; end_ := end_ st;
          matchedSlash := matchedSlash st; preDotState := preDotState st |}
  else {| startDot := startDot st; startPart := startPart st; end_ := end_ st;
          matchedSlash := matchedSlash st; preDotState := 1 |}.

Definition see_other (st : ExtScan) : ExtScan :=
  if (startDot st =? -1)%Z then st
  else {| startDot := startDot st; startPart := startPart st; end_ := end_ st;
          matchedSlash := matchedSlash st; preDotState := -1 |}.

(** [rev_path] holds the characters still to read, last one first, so the
    head of [rev_path] is the character at index [length (tail)]. *)
Fixpoint ext_scan (rev_path : list ascii) (st : ExtScan) : ExtScan :=
  match rev_path with
  | [] => st
  | c :: rest =>
      let i := Z.of_nat (length rest) in
      if Ascii.eqb c "/" then
        if negb (matchedSlash st)
        then {| startDot := startDot st; startPart := i + 1; end_ := end_ st;
                matchedSlash := matchedSlash st; preDotState := preDotState st |}
        else ext_scan rest st
      else
        let st1 := mark_end i st in
        if Ascii.eqb c "."
        then ext_scan rest (see_dot i st1)
        else ext_scan rest (see_other st1)
  end.

Definition slice (s : string) (from to : Z) : string :=
  String.substring (Z.to_nat from) (Z.to_nat (to - from)) s.

Definition extname (path : string) : string :=
  let st := ext_scan (rev (list_ascii_of_string path)) ext_init in
  if (startDot st =? -1)%Z
     || (end_ st =? -1)%Z
     || (preDotState st =? 0)%Z
     || ((preDotState st =? 1)%Z
         && (startDot st =? end_ st - 1)%Z
         && (startDot st =? startPart st + 1)%Z)
  then ""
  else slice path (startDot st) (end_ st).

(** [path.join(dir, name)] for a directory and a file name: the two parts
    joined by the separator (normalisation of [dir] is not modelled; it
    never changes the last segment). *)
Definition path_join (dir name : string) : string :=
  match dir with
  | EmptyString => name
  | _ => dir ++ "/" ++ name
  end.

End Js.

(** ** Numbers and their text *)

Module JsNum.

Inductive JsNumber :=
| NaN
| Infinity (negative : bool)
| Num (q : Q).

Definition digit_char (d : Z) : ascii := ascii_of_nat (48 + Z.to_nat d).

(** Decimal digits of a non-negative integer, most significant first;
    [fuel] bounds the number of digits. *)
Fixpoint digits_fuel (fuel : nat) (n : Z) (acc : string) : string :=
  match fuel with
  | O => acc
  | S f =>
      let acc' := String (digit_char (n mod 10)%Z) acc in
      if (n / 10 =? 0)%Z then acc' else digits_fuel f (n / 10)%Z acc'
  end.

Definition decimal (n : Z) : string :=
  digits_fuel (S (Z.to_nat (Z.log2 n))) n "".

(** The [width] low decimal digits of [n], zero padded. *)
Fixpoint fixed_digits (width : nat) (n : Z) (acc : string) : string :=
  match width with
  | O => acc
  | S w => fixed_digits w (n / 10)%Z (String (digit_char (n mod 10)%Z) acc)
  end.

(** [x.toFixed(d)] for [x >= 0]: the integer [n] closest to [x * 10^d]
    (the larger one on a tie), written with [d] fractional digits. *)
Definition toFixed_nonneg (d : nat) (q : Q) : string :=
  let scale := (10 ^ Z.of_nat d)%Z in
  let n := Qfloor (q * inject_Z scale + (1 # 2))%Q in
  decimal (n / scale)%Z
    ++ (if (d =? 0)%nat then "" else "." ++ fixed_digits d (n mod scale)%Z "").

Definition toFixed (d : nat) (q : Q) : string :=
  if Qlt_le_dec q 0 then "-" ++ toFixed_nonneg d (- q)%Q else toFixed_nonneg d q.

(** [x.toFixed(2)]. *)
Definition toFixed2 (q : Q) : string := toFixed 2 q.

Definition is_digit (c : ascii) : bool :=
  let n := nat_of_ascii c in (48 <=? n)%nat && (n <=? 57)%nat.

Definition digit_val (c : ascii) : Z := (Z.of_nat (nat_of_ascii c) - 48)%Z.

Definition is_space (c : ascii) : bool :=
  let n := nat_of_ascii c in
  (n =? 32)%nat || ((9 <=? n)%nat && (n <=? 13)%nat).

Fixpoint skip_spaces (s : string) : string :=
  match s with
  | String c s' => if is_space c then skip_spaces s' else s
  | EmptyString => s
  end.

(** Reads a run of digits: the value accumulated, the number of digits
    read and the rest of the text. *)
Fixpoint read_digits (s : string) (acc : Z) (count : nat) : Z * nat * string :=
  match s with
  | String c s' =>
      if is_digit c then read_digits s' (acc * 10 + digit_val c)%Z (S count)
      else (acc, count, s)
  | EmptyString => (acc, count, s)
  end.

Definition pow10 (e : Z) : Q :=
  if (0 <=? e)%Z then inject_Z (10 ^ e)%Z else (/ inject_Z (10 ^ (- e))%Z)%Q.

(** Optional exponent part [e[+-]digits]; it counts only when a digit
    follows. *)
Definition read_exponent (s : string) : Z :=
  match s with
  | String c s' =>
      if Ascii.eqb c "e" || Ascii.eqb c "E" then
        match s' with
        | String "+" s'' =>
            let '(e, k, _) := read_digits s'' 0%Z 0%nat in
            if (k =? 0)%nat then 0%Z else e
        | String "-" s'' =>
            let '(e, k, _) := read_digits s'' 0%Z 0%nat in
            if (k =? 0)%nat then 0%Z else (- e)%Z
        | _ =>
            let '(e, k, _) := read_digits s' 0%Z 0%nat in
            if (k =? 0)%nat then 0%Z else e
        end
      else 0%Z
  | EmptyString => 0%Z
  end.

Definition parse_unsigned (s : string) : JsNumber :=
  if Js.startsWith s "Infinity" then Infinity false
  else
    let '(ip, ni, rest) := read_digits s 0%Z 0%nat in
    match rest with
    | String "." rest' =>
        let '(fp, nf, rest'') := read_digits rest' 0%Z 0%nat in
        if ((ni =? 0) && (nf =? 0))%nat then NaN
        else
          let mant := (inject_Z ip + inject_Z fp * pow10 (- Z.of_nat nf)%Z)%Q in
          Num (mant * pow10 (read_exponent rest''))%Q
    | _ =>
        if (ni =? 0)%nat then NaN
        else Num (inject_Z ip * pow10 (read_exponent rest))%Q
    end.

Definition negate (x : JsNumber) : JsNumber :=
  match x with
  | NaN => NaN
  | Infinity b => Infinity (negb b)
  | Num q => Num (- q)%Q
  end.

(** [parseFloat(s)]: the longest prefix of the trimmed text that is a
    decimal literal, [NaN] when there is none. *)
Definition parseFloat (s : string) : JsNumber :=
  match skip_spaces s with
  | String "-" s' => negate (parse_unsigned s')
  | String "+" s' => parse_unsigned s'
  | s' => parse_unsigned s'
  end.

End JsNum.

(** ** Values, errors and the world the code runs in *)

(** A parsed JSON document. *)
#[warnings="-register-all"] Inductive Json :=
| JNull
| JBool (b : bool)
| JNumber (q : Q)
| JString (s : string)
| JArray (items : list Json)
| JObject (fields : list (string * Json)).

(** A JavaScript value that may be [undefined] ([None]). *)
Abbreviation JsVal := (option Json).

(** [new Error(message)]. *)
Record JsError := Error { message : string }.

Record TokenUsage := {
  promptTokens : Z;
  completionTokens : Z;
  totalTokens : Z
}.

Definition zeroUsage : TokenUsage :=
  {| promptTokens := 0; completionTokens := 0; totalTokens := 0 |}.

(** What the chat-completion provider answers: a rejection, or a
    response whose [choices[0].message.content] and [usage] may be
    missing. *)
Inductive ProviderOutcome :=
| ProviderRejects (err : JsError)
| ProviderAnswers (content : option string) (usage : option TokenUsage).

Module JsValue.

(** Property read [o.k] on a parsed document: [undefined] unless [o] is
    an object holding [k]; the last binding of a repeated key wins. *)
Fixpoint assoc_last (k : string) (fields : list (string * Json)) : JsVal :=
  match fields with
  | [] => None
  | (k', v) :: rest =>
      match assoc_last k rest with
      | Some v' => Some v'
      | None => if String.eqb k k' then Some v else None
      end
  end.

Definition prop (k : string) (o : Json) : JsVal :=
  match o with
  | JObject fields => assoc_last k fields
  | _ => None
  end.

(** Optional chaining [o?.k]. *)
Definition prop_opt (k : string) (o : JsVal) : JsVal :=
  match o with
  | Some v => prop k v
  | None => None
  end.

Definition Qnonzero (q : Q) : bool := negb (Qeq_bool q 0).

(** Truthiness. *)
Definition truthy (v : JsVal) : bool :=
  match v with
  | None => false
  | Some JNull => false
  | Some (JBool b) => b
  | Some (JNumber q) => Qnonzero q
  | Some (JString s) => negb (String.eqb s "")
  | Some (JArray _) => true
  | Some (JObject _) => true
  end.

(** [v || d]. *)
Definition or_else (v : JsVal) (d : Json) : Json :=
  match v with
  | Some x => if truthy v then x else d
  | None => d
  end.

End JsValue.

(** What [fs.statSync] tells about a file. *)
Record Stats := {
  stat_size : N
}.

Inductive ReqValue :=
| RUndefined
| RString (s : string)
| ROther.

Record SentimentView := {
  sv_sentiment : JsVal;
  sv_confidence : JsVal;
  sv_emotions : JsVal;
  sv_summary : JsVal;
  sv_error : Json;
  sv_processingTimeMs : Z;
  sv_tokenUsage : TokenUsage
}.

Record ProcessingTimes := {
  pt_download : Z;
  pt_extraction : Z;
  pt_transcription : Z;
  pt_sentiment : Z;
  pt_summarization : Z;
  pt_cleanup : Z;
  pt_total : Z
}.

Record WhisperUsage := {
  estimatedDurationMinutes : JsNum.JsNumber;
  audioSizeMB : JsNum.JsNumber
}.

Record UsageReport := {
  ur_whisper : WhisperUsage;
  ur_sentiment : TokenUsage;
  ur_summarization : TokenUsage;
  ur_total : TokenUsage
}.

Record Metadata := {
  transcriptionLength : nat;
  md_wordCount : nat;
  processingTimes : ProcessingTimes;
  md_tokenUsage : UsageReport;
  fileWasAudio : bool
}.

Inductive ResponseBody :=
| BodyOk (url : ReqValue) (transcription : string) (sentiment : SentimentView)
         (summary : string) (metadata : Metadata)
| BodyError (error : string) (message : option string) (url : option ReqValue).

Record CleanedFile := {
  cf_path : string;
  cf_sizeBytes : option N;
  cf_cleaned : bool;
  cf_error : option string
}.

(** What an observer of the process sees, in order. *)
Inductive Event :=
| EvLog (level msg : string)
| EvLogCleaned (level msg : string) (cleanedFiles : list (string * bool))
| EvDownload (url dest : string)
| EvExtract (input output : string)
| EvUpload (path : string) (sizeBytes : option N)
| EvChat (purpose : string)
| EvExists (path : string) (found : bool)
| EvUnlink (path : string) (ok : bool)
| EvRespond (status : Z) (body : ResponseBody).

(** The disk maps the path of a file to its size. *)
Record World := {
  files : gmap string N;
  clock_reads : nat;
  trace : list Event
}.

(** ** Code that reads the clock, touches the disk, logs and throws *)

Module Eff.

Definition M (A : Type) : Type := World -> (JsError + A) * World.

Definition ret {A} (x : A) : M A := fun w => (inr x, w).

Definition bind {A B} (m : M A) (k : A -> M B) : M B :=
  fun w =>
    match m w with
    | (inl e, w') => (inl e, w')
    | (inr x, w') => k x w'
    end.

Definition throw {A} (e : JsError) : M A := fun w => (inl e, w).

(** [try { body } catch (error) { handler }]. *)
Definition try_catch {A} (body : M A) (handler : JsError -> M A) : M A :=
  fun w =>
    match body w with
    | (inl e, w') => handler e w'
    | (inr x, w') => (inr x, w')
    end.

Definition emit (e : Event) : M unit :=
  fun w => (inr tt, {| files := files w; clock_reads := clock_reads w;
                       trace := trace w ++ [e] |}).

Definition log (level msg : string) : M unit := emit (EvLog level msg).

(** [Date.now()]: the next reading of the clock. *)
Definition Date_now (clock : nat -> Z) : M Z :=
  fun w => (inr (clock (clock_reads w)),
            {| files := files w; clock_reads := S (clock_reads w);
               trace := trace w |}).

Definition existsSync (path : string) : M bool :=
  fun w =>
    let found := bool_decide (is_Some (files w !! path)) in
    (inr found, {| files := files w; clock_reads := clock_reads w;
                   trace := trace w ++ [EvExists path found] |}).

Definition statSync (path : string) : M Stats :=
  fun w =>
    match files w !! path with
    | Some n => (inr {| stat_size := n |}, w)
    | None => (inl (Error ("ENOENT: no such file or directory, stat '" ++ path ++ "'")), w)
    end.

(** [fs.unlinkSync(path)]: [unlinkError path] is the message of the
    error the operating system answers with, if it refuses. *)
Definition unlinkSync (unlinkError : string -> option string) (path : string)
  : M unit :=
  fun w =>
    match files w !! path with
    | Some _ =>
        match unlinkError path with
        | Some msg =>
            (inl (Error msg),
             {| files := files w; clock_reads := clock_reads w;
                trace := trace w ++ [EvUnlink path false] |})
        | None =>
            (inr tt,
             {| files := delete path (files w); clock_reads := clock_reads w;
                trace := trace w ++ [EvUnlink path true] |})
        end
    | None =>
        (inl (Error ("ENOENT: no such file or directory, unlink '" ++ path ++ "'")),
         {| files := files w; clock_reads := clock_reads w;
            trace := trace w ++ [EvUnlink path false] |})
    end.

(** A stream writes [bytes] to [path], replacing what was there. *)
Definition writeFile (path : string) (bytes : N) : M unit :=
  fun w =>
    (inr tt, {| files := <[path := bytes]> (files w);
                clock_reads := clock_reads w; trace := trace w |}).

(** [try { body } finally { final }]. *)
Definition finally {A} (body : M A) (final : M unit) : M A :=
  fun w =>
    match body w with
    | (r, w') =>
        match final w' with
        | (inl e, w'') => (inl e, w'')
        | (inr _, w'') => (r, w'')
        end
    end.

(** [fs.readdirSync(dir)], as the full paths of the files below [dir]. *)
Definition readdirSync (dir : string) : M (list string) :=
  fun w =>
    (inr (List.filter (fun p => Js.startsWith p (dir ++ "/"))
            (map fst (map_to_list (files w)))), w).

End Eff.

Notation "x <- m ;; k" := (Eff.bind m (fun x => k))
  (at level 100, m at next level, right associativity).
Notation "m ;;; k" := (Eff.bind m (fun _ => k))
  (at level 100, right associativity).

Definition bytesToMB (n : N) : Q := inject_Z (Z.of_N n) / inject_Z (1024 * 1024).

Definition Qltb (a b : Q) : bool := negb (Qle_bool b a).

(** ** utils/fileUtils.js *)

Module FileUtils.

Definition base36_char (d : nat) : ascii :=
  let d := (d mod 36)%nat in
  if (d <? 10)%nat then ascii_of_nat (48 + d) else ascii_of_nat (87 + d).

(** [Math.random().toString(36)] for the base-36 digits of the fraction. *)
Definition random_text (digits : list nat) : string :=
  match digits with
  | [] => "0"
  | _ => "0." ++ string_of_list_ascii (map base36_char digits)
  end.

(** [s.substring(7)]. *)
Definition substring7 (s : string) : string :=
  String.substring 7 (String.length s - 7) s.

Record TempPaths := {
  tempDir : string;
  uniqueId : string;
  inputPath : string;
  outputPath : string
}.

(** [createTempPaths]: [tmpdir] is [os.tmpdir()], [now] the reading of
    [Date.now()] and [random_digits] the draw of [Math.random()]. *)
Definition createTempPaths (tmpdir : string) (now : Z) (random_digits : list nat)
  : TempPaths :=
  let uniqueId := JsNum.decimal now ++ "-" ++ substring7 (random_text random_digits) in
  {| tempDir := tmpdir;
     uniqueId := uniqueId;
     inputPath := Js.path_join tmpdir ("input-" ++ uniqueId ++ ".webm");
     outputPath := Js.path_join tmpdir ("output-" ++ uniqueId ++ ".mp3") |}.

(** What the HTTP client and the write stream do. *)
Inductive DownloadOutcome :=
| DownloadRejected (err : JsError)
| DownloadWriteFailed (err : JsError) (written : N)
| DownloadOk (bytes : N) (contentTypeHeader : option string).

Record DownloadResult := {
  downloadTime : Z;
  dl_sizeBytes : N;
  dl_sizeMB : Q;
  contentType : option string
}.

Definition downloadFile (clock : nat -> Z) (outcome : DownloadOutcome)
    (url outputPath : string) : Eff.M DownloadResult :=
  startTime <- Eff.Date_now clock ;;
  Eff.log "INFO" "Downloading file from URL" ;;;
  Eff.emit (EvDownload url outputPath) ;;;
  match outcome with
  | DownloadRejected err => Eff.throw err
  | DownloadWriteFailed err written =>
      Eff.writeFile outputPath written ;;; Eff.throw err
  | DownloadOk bytes header =>
      Eff.writeFile outputPath bytes ;;;
      endTime <- Eff.Date_now clock ;;
      stats <- Eff.statSync outputPath ;;
      let sizeInMB := bytesToMB (stat_size stats) in
      let contentType := if Js.truthy header then header else None in
      Eff.log "INFO" "File downloaded successfully" ;;;
      Eff.ret {| downloadTime := endTime - startTime;
                 dl_sizeBytes := stat_size stats;
                 dl_sizeMB := sizeInMB;
                 contentType := contentType |}
  end.

(** [cleanupFiles]: a path that is [null], empty or absent from the disk
    is skipped; an error of [unlinkSync] is recorded in the entry. *)
Fixpoint cleanupFiles (unlinkError : string -> option string)
    (filePaths : list (option string)) : Eff.M (list CleanedFile) :=
  match filePaths with
  | [] => Eff.ret []
  | filePath :: rest =>
      match filePath with
      | Some (String c p as path) =>
          found <- Eff.existsSync path ;;
          if found : bool then
            entry <- Eff.try_catch
                       (stats <- Eff.statSync path ;;
                        Eff.unlinkSync unlinkError path ;;;
                        Eff.ret {| cf_path := path;
                                   cf_sizeBytes := Some (stat_size stats);
                                   cf_cleaned := true;
                                   cf_error := None |})
                       (fun error =>
                          Eff.ret {| cf_path := path;
                                     cf_sizeBytes := None;
                                     cf_cleaned := false;
                                     cf_error := Some (message error) |}) ;;
            others <- cleanupFiles unlinkError rest ;;
            Eff.ret (entry :: others)
          else cleanupFiles unlinkError rest
      | _ => cleanupFiles unlinkError rest
      end
  end.

End FileUtils.

(** ** utils/audioUtils.js *)

Module AudioUtils.

Definition audioOnlyExtensions : list string :=
  [".mp3"; ".mpga"; ".m4a"; ".wav"; ".ogg"; ".flac"; ".aac"].

Definition ambiguousExtensions : list string := [".mp4"; ".mpeg"; ".webm"].

Definition audioMimeTypes : list string :=
  ["audio/mpeg"; "audio/mp3"; "audio/mp4"; "audio/m4a"; "audio/wav";
   "audio/webm"; "audio/ogg"; "audio/flac"; "audio/x-m4a"; "audio/aac"].

Definition videoMimeTypes : list string :=
  ["video/mp4"; "video/mpeg"; "video/webm"; "video/quicktime";
   "video/x-msvideo"; "video/x-matroska"; "video/3gpp"; "video/x-flv"].

(** [list.some(type => text.includes(type))]. *)
Definition some_included (types : list string) (text : string) : bool :=
  existsb (fun type => Js.includes text type) types.

(** [isAudioFile(filePath, contentType)]; its log lines are left out. *)
Definition isAudioFile (filePath : string) (contentType : option string) : bool :=
  let ext := Js.toLowerCase (Js.extname filePath) in
  let normalizedContentType :=
    if Js.truthy contentType then option_map Js.toLowerCase contentType else None in
  let text := default "" normalizedContentType in
  if Js.truthy normalizedContentType && some_included videoMimeTypes text then false
  else if Js.truthy normalizedContentType && some_included audioMimeTypes text then true
  else if Js.array_includes audioOnlyExtensions ext then true
  else if Js.array_includes ambiguousExtensions ext then
    (if Js.truthy normalizedContentType then false else false)
  else false.

(** What ffmpeg does with the input: it fails, possibly leaving a partial
    output, or it writes the audio file. *)
Inductive ExtractOutcome :=
| ExtractFailed (err : JsError) (written : option N)
| ExtractOk (bytes : N).

Record ExtractionResult := {
  extractionTime : Z;
  outputSizeBytes : N;
  outputSizeMB : Q
}.

Definition extractAudioFromVideo (clock : nat -> Z) (outcome : ExtractOutcome)
    (inputPath outputPath : string) (ffmpegPath : string)
  : Eff.M ExtractionResult :=
  startTime <- Eff.Date_now clock ;;
  Eff.log "INFO" "Extracting audio from video" ;;;
  Eff.emit (EvExtract inputPath outputPath) ;;;
  match outcome with
  | ExtractFailed err written =>
      match written with
      | Some n => Eff.writeFile outputPath n
      | None => Eff.ret tt
      end ;;;
      Eff.throw err
  | ExtractOk bytes =>
      Eff.writeFile outputPath bytes ;;;
      endTime <- Eff.Date_now clock ;;
      outputStats <- Eff.statSync outputPath ;;
      let outputSizeInMB := bytesToMB (stat_size outputStats) in
      inputStats <- Eff.statSync inputPath ;;
      Eff.log "INFO" "Audio extracted successfully" ;;;
      Eff.ret {| extractionTime := endTime - startTime;
                 outputSizeBytes := stat_size outputStats;
                 outputSizeMB := outputSizeInMB |}
  end.

Record SizeInfo := {
  sizeBytes : N;
  sizeMB : Q
}.

Definition tooLargeMessage (sizeInMB : Q) : string :=
  "Audio file is too large: " ++ JsNum.toFixed2 sizeInMB
    ++ "MB. Maximum size is 25MB.".

(** [validateFileSize(filePath)]; the guard against a size that is not
    a number cannot fire on the size of a file and is left out. *)
Definition validateFileSize (filePath : string) : Eff.M SizeInfo :=
  stats <- Eff.statSync filePath ;;
  let sizeInMB := bytesToMB (stat_size stats) in
  if Qltb 25 sizeInMB then
    Eff.log "ERROR" "Audio file too large" ;;;
    Eff.throw (Error (tooLargeMessage sizeInMB))
  else
    Eff.log "INFO" "File size check passed" ;;;
    Eff.ret {| sizeBytes := stat_size stats; sizeMB := sizeInMB |}.

(** [estimateAudioDuration(sizeMB)]. *)
Definition estimateAudioDuration (sizeMB : Q) : string :=
  if Qltb 0 sizeMB then JsNum.toFixed2 (sizeMB / 10) else "unknown".

End AudioUtils.

(** ** utils/openaiUtils.js *)

Module OpenaiUtils.

Fixpoint count_words (s : string) (inWord : bool) : nat :=
  match s with
  | EmptyString => 0
  | String c s' =>
      if JsNum.is_space c then count_words s' false
      else ((if inWord then 0 else 1) + count_words s' true)%nat
  end.

(** [text.split(/\s+/).filter((w) => w.length > 0).length]. *)
Definition wordCount (text : string) : nat := count_words text false.

Fixpoint trim_end (s : string) : string :=
  match s with
  | EmptyString => EmptyString
  | String c s' =>
      match trim_end s' with
      | EmptyString => if JsNum.is_space c then EmptyString else String c EmptyString
      | t => String c t
      end
  end.

(** [s.trim()]. *)
Definition trim (s : string) : string := trim_end (JsNum.skip_spaces s).

(** [getOpenAIClient()]: [clientReady] says that a client was built
    before or that the API key is set. *)
Definition getOpenAIClient (clientReady : bool) : Eff.M unit :=
  if clientReady then Eff.ret tt
  else Eff.throw (Error "OPENAI_API_KEY is not set. Please set it in your environment or pass it to createTranscriptionRouter.").

Record TranscriptionResult := {
  text : string;
  length : nat;
  tr_wordCount : nat;
  tr_processingTime : Z
}.

(** [transcribeAudio(audioFilePath)]: the provider rejects, or answers
    with a text that may be missing. *)
Definition transcribeAudio (clock : nat -> Z) (outcome : JsError + option string)
    (clientReady : bool) (audioFilePath : string) : Eff.M TranscriptionResult :=
  startTime <- Eff.Date_now clock ;;
  Eff.log "INFO" "Starting Whisper transcription" ;;;
  getOpenAIClient clientReady ;;;
  (fun w => Eff.emit (EvUpload audioFilePath (files w !! audioFilePath)) w) ;;;
  match outcome with
  | inl err => Eff.throw err
  | inr answer =>
      endTime <- Eff.Date_now clock ;;
      let transcriptionText := if Js.truthy answer then default "" answer else "" in
      Eff.log "INFO" "Transcription completed successfully" ;;;
      Eff.ret {| text := transcriptionText;
                 length := String.length transcriptionText;
                 tr_wordCount := wordCount transcriptionText;
                 tr_processingTime := endTime - startTime |}
  end.

Record SentimentResult := {
  sentiment : JsVal;
  confidence : JsVal;
  emotions : JsVal;
  summary : JsVal;
  processingTime : Z;
  tokenUsage : TokenUsage;
  error : JsVal
}.

Record SummaryResult := {
  sm_summary : string;
  sm_processingTime : Z;
  sm_tokenUsage : TokenUsage;
  sm_error : bool
}.

(** Reading a property of [undefined] throws a [TypeError]. *)
Definition defined {A} (what : string) (o : option A) : Eff.M A :=
  match o with
  | Some x => Eff.ret x
  | None => Eff.throw (Error ("Cannot read properties of undefined (reading '" ++ what ++ "')"))
  end.

Section WithParser.

(** [JSON.parse]: [None] stands for the [SyntaxError]. *)
Variable JSON_parse : string -> option Json.

Definition parse (content : option string) : Eff.M Json :=
  match content with
  | Some s =>
      match JSON_parse s with
      | Some v => Eff.ret v
      | None => Eff.throw (Error "Unexpected token in JSON")
      end
  | None => Eff.throw (Error "undefined is not valid JSON")
  end.

(** [analyzeSentiment(text)].  The local [result] starts as the object
    below; the [try] block replaces it as its last step, so the handler
    always works on the initial object. *)
Definition analyzeSentiment (clock : nat -> Z) (outcome : ProviderOutcome)
    (clientReady : bool) (text : string) : Eff.M SentimentResult :=
  startTime <- Eff.Date_now clock ;;
  Eff.log "INFO" "Starting sentiment analysis" ;;;
  let result :=
    {| sentiment := Some JNull; confidence := Some JNull;
       emotions := Some (JArray []); summary := Some JNull;
       processingTime := 0; tokenUsage := zeroUsage;
       error := Some (JBool false) |} in
  Eff.try_catch
    (getOpenAIClient clientReady ;;;
     Eff.emit (EvChat "sentiment") ;;;
     match outcome with
     | ProviderRejects err => Eff.throw err
     | ProviderAnswers content usage =>
         now <- Eff.Date_now clock ;;
         sentimentData <- parse content ;;
         usage <- defined "prompt_tokens" usage ;;
         let result :=
           {| sentiment := JsValue.prop "sentiment" sentimentData;
              confidence := JsValue.prop "confidence" sentimentData;
              emotions := JsValue.prop "emotions" sentimentData;
              summary := JsValue.prop "summary" sentimentData;
              processingTime := now - startTime;
              tokenUsage := usage;
              error := JsValue.prop "error" sentimentData |} in
         Eff.log "INFO" "Sentiment analysis completed" ;;;
         Eff.ret result
     end)
    (fun err =>
       now <- Eff.Date_now clock ;;
       let result :=
         {| sentiment := Some (JString "neutral");
            confidence := Some (JNumber 0);
            emotions := Some (JArray []);
            summary := Some (JString "Sentiment analysis could not be completed");
            processingTime := now - startTime;
            tokenUsage := tokenUsage result;
            error := Some (JBool true) |} in
       Eff.log "ERROR" "Sentiment analysis failed" ;;;
       Eff.ret result).

(** [generateSummary(text, customPrompt)].  The prompt only travels to
    the provider.  In the [try] block the assignment of [tokenUsage] is
    the last step that can throw, so the handler finds the initial one. *)
Definition generateSummary (clock : nat -> Z) (outcome : ProviderOutcome)
    (clientReady : bool) (text : string) (customPrompt : option string)
  : Eff.M SummaryResult :=
  startTime <- Eff.Date_now clock ;;
  Eff.log "INFO" "Starting summarization" ;;;
  let result :=
    {| sm_summary := ""; sm_processingTime := 0;
       sm_tokenUsage := zeroUsage; sm_error := false |} in
  Eff.try_catch
    (getOpenAIClient clientReady ;;;
     Eff.emit (EvChat "summary") ;;;
     match outcome with
     | ProviderRejects err => Eff.throw err
     | ProviderAnswers content usage =>
         now <- Eff.Date_now clock ;;
         content <- defined "trim" content ;;
         usage <- defined "prompt_tokens" usage ;;
         Eff.log "INFO" "Summarization completed" ;;;
         Eff.ret {| sm_summary := trim content;
                    sm_processingTime := now - startTime;
                    sm_tokenUsage := usage;
                    sm_error := sm_error result |}
     end)
    (fun err =>
       now <- Eff.Date_now clock ;;
       Eff.log "ERROR" "Summarization failed" ;;;
       Eff.ret {| sm_summary := "Summarization could not be completed due to an error.";
                  sm_processingTime := now - startTime;
                  sm_tokenUsage := sm_tokenUsage result;
                  sm_error := true |}).

End WithParser.

End OpenaiUtils.

(** ** routes/transcribe.js *)

Module Route.

Record Body := {
  url : ReqValue;
  summarizationPrompt : option string
}.

Record Request := {
  body : option Body
}.

(** Everything the handler gets from outside during one request. *)
Record Env := {
  apiKey : bool;
  ffmpegPath : option string;
  tmpdir : string;
  random_digits : list nat;
  clock : nat -> Z;
  download : FileUtils.DownloadOutcome;
  extraction : AudioUtils.ExtractOutcome;
  transcription : JsError + option string;
  sentimentAnswer : ProviderOutcome;
  summaryAnswer : ProviderOutcome;
  unlinkError : string -> option string
}.

Definition respond (status : Z) (body : ResponseBody) : Eff.M unit :=
  Eff.emit (EvRespond status body).

Definition cleaned_view (cleanedFiles : list CleanedFile) : list (string * bool) :=
  map (fun f => (cf_path f, cf_cleaned f)) cleanedFiles.

(** The three variables the classification step leaves behind. *)
Record AudioChoice := {
  extractionTime : Z;
  outputSizeMB : Q;
  audioFilePath : string
}.

Definition addUsage (a b : TokenUsage) : TokenUsage :=
  {| promptTokens := promptTokens a + promptTokens b;
     completionTokens := completionTokens a + completionTokens b;
     totalTokens := totalTokens a + totalTokens b |}.

Section WithParser.

Variable JSON_parse : string -> option Json.

(** The [catch] block of the handler, for the values [tempInputPath] and
    [tempOutputPath] hold when the exception arrives. *)
Definition catch_block (env : Env) (originalUrl : ReqValue) (startTime : Z)
    (tempInputPath tempOutputPath : option string) (error : JsError)
  : Eff.M unit :=
  now <- Eff.Date_now (clock env) ;;
  Eff.log "ERROR" "Error in transcription route" ;;;
  Eff.try_catch
    (let filesToCleanup := List.filter Js.truthy [tempInputPath; tempOutputPath] in
     cleanedFiles <- FileUtils.cleanupFiles (unlinkError env) filesToCleanup ;;
     if (0 <? List.length cleanedFiles)%nat
     then Eff.emit (EvLogCleaned "INFO" "Temporary files cleaned up after error"
                      (cleaned_view cleanedFiles))
     else Eff.ret tt)
    (fun cleanupError =>
       Eff.log "ERROR" "Error cleaning up temp files after error") ;;;
  let errorMessage :=
    if String.eqb (message error) "" then "Unknown error occurred" else message error in
  respond 500 (BodyError "Failed to transcribe audio" (Some errorMessage)
                 (Some originalUrl)).

(** Steps 1 (after the paths are made) to 7 and the success response. *)
Definition pipeline (env : Env) (url : string) (summarizationPrompt : option string)
    (originalUrl : ReqValue) (startTime : Z) (tempInputPath tempOutputPath : string)
  : Eff.M unit :=
  Eff.log "INFO" "Created temporary file paths" ;;;
  dl <- FileUtils.downloadFile (clock env) (download env) url tempInputPath ;;
  let inputSizeMB := FileUtils.dl_sizeMB dl in
  let contentType := FileUtils.contentType dl in
  let fileIsAudio := AudioUtils.isAudioFile tempInputPath contentType in
  choice <-
    (if fileIsAudio then
       Eff.log "INFO" "File is already an audio file, skipping extraction" ;;;
       validationResult <- AudioUtils.validateFileSize tempInputPath ;;
       Eff.ret {| extractionTime := 0;
                  outputSizeMB := AudioUtils.sizeMB validationResult;
                  audioFilePath := tempInputPath |}
     else
       if negb (Js.truthy (ffmpegPath env)) then
         Eff.log "ERROR" "FFmpeg not configured" ;;;
         Eff.throw (Error "FFmpeg is not installed or not found. Please install ffmpeg (brew install ffmpeg on macOS, apt-get install ffmpeg on Linux) and ensure it's in your PATH.")
       else
         Eff.log "INFO" "File appears to be a video, extracting audio" ;;;
         extractionResult <-
           AudioUtils.extractAudioFromVideo (clock env) (extraction env)
             tempInputPath tempOutputPath (default "" (ffmpegPath env)) ;;
         Eff.ret {| extractionTime := AudioUtils.extractionTime extractionResult;
                    outputSizeMB := AudioUtils.outputSizeMB extractionResult;
                    audioFilePath := tempOutputPath |}) ;;
  transcriptionResult <-
    OpenaiUtils.transcribeAudio (clock env) (transcription env) (apiKey env)
      (audioFilePath choice) ;;
  let audioDurationMinutes := AudioUtils.estimateAudioDuration (outputSizeMB choice) in
  sentimentResult <-
    OpenaiUtils.analyzeSentiment JSON_parse (clock env) (sentimentAnswer env)
      (apiKey env) (OpenaiUtils.text transcriptionResult) ;;
  summaryResult <-
    OpenaiUtils.generateSummary (clock env) (summaryAnswer env) (apiKey env)
      (OpenaiUtils.text transcriptionResult) summarizationPrompt ;;
  cleanupStartTime <- Eff.Date_now (clock env) ;;
  let filesToCleanup :=
    if fileIsAudio then [Some tempInputPath]
    else [Some tempInputPath; Some tempOutputPath] in
  cleanedFiles <- FileUtils.cleanupFiles (unlinkError env) filesToCleanup ;;
  cleanupEnd <- Eff.Date_now (clock env) ;;
  let cleanupTime := (cleanupEnd - cleanupStartTime)%Z in
  Eff.emit (EvLogCleaned "INFO" "Temporary files cleaned up"
              (cleaned_view cleanedFiles)) ;;;
  endTime <- Eff.Date_now (clock env) ;;
  let totalTime := (endTime - startTime)%Z in
  let total :=
    addUsage (OpenaiUtils.tokenUsage sentimentResult)
             (OpenaiUtils.sm_tokenUsage summaryResult) in
  Eff.log "INFO" "Request completed successfully" ;;;
  respond 200
    (BodyOk originalUrl (OpenaiUtils.text transcriptionResult)
       {| sv_sentiment := OpenaiUtils.sentiment sentimentResult;
          sv_confidence := OpenaiUtils.confidence sentimentResult;
          sv_emotions := OpenaiUtils.emotions sentimentResult;
          sv_summary := OpenaiUtils.summary sentimentResult;
          sv_error := JsValue.or_else (OpenaiUtils.error sentimentResult) (JBool false);
          sv_processingTimeMs := OpenaiUtils.processingTime sentimentResult;
          sv_tokenUsage := OpenaiUtils.tokenUsage sentimentResult |}
       (OpenaiUtils.sm_summary summaryResult)
       {| transcriptionLength := OpenaiUtils.length transcriptionResult;
          md_wordCount := OpenaiUtils.tr_wordCount transcriptionResult;
          processingTimes :=
            {| pt_download := FileUtils.downloadTime dl;
               pt_extraction := extractionTime choice;
               pt_transcription := OpenaiUtils.tr_processingTime transcriptionResult;
               pt_sentiment := OpenaiUtils.processingTime sentimentResult;
               pt_summarization := OpenaiUtils.sm_processingTime summaryResult;
               pt_cleanup := cleanupTime;
               pt_total := totalTime |};
          md_tokenUsage :=
            {| ur_whisper :=
                 {| estimatedDurationMinutes := JsNum.parseFloat audioDurationMinutes;
                    audioSizeMB :=
                      JsNum.parseFloat (JsNum.toFixed2 (outputSizeMB choice)) |};
               ur_sentiment := OpenaiUtils.tokenUsage sentimentResult;
               ur_summarization := OpenaiUtils.sm_tokenUsage summaryResult;
               ur_total := total |};
          fileWasAudio := fileIsAudio |}).

(** [router.post("/transcribe", ...)].  [tempInputPath] and
    [tempOutputPath] are [null] until [createTempPaths] has run and hold
    the two paths from then on, so the [catch] block is attached once for
    each of the two stretches of the [try] block. *)
Definition transcribe (env : Env) (req : Request) : Eff.M unit :=
  startTime <- Eff.Date_now (clock env) ;;
  let originalUrl :=
    match body req with
    | Some b => url b
    | None => RUndefined
    end in
  Eff.try_catch
    (match body req with
     | None =>
         Eff.throw (Error "Cannot destructure property 'url' of 'req.body' as it is undefined.")
     | Some b =>
         Eff.log "INFO" "Request received" ;;;
         match url b with
         | RString (String _ _ as u) =>
             if negb (apiKey env) then
               Eff.log "ERROR" "OpenAI API key not configured" ;;;
               respond 500
                 (BodyError "Server configuration error: OpenAI API key not set"
                    None None)
             else
               Eff.log "INFO" "Starting transcription process" ;;;
               now <- Eff.Date_now (clock env) ;;
               let paths := FileUtils.createTempPaths (tmpdir env) now (random_digits env) in
               let tempInputPath := FileUtils.inputPath paths in
               let tempOutputPath := FileUtils.outputPath paths in
               Eff.try_catch
                 (pipeline env u (summarizationPrompt b) originalUrl startTime
                    tempInputPath tempOutputPath)
                 (catch_block env originalUrl startTime
                    (Some tempInputPath) (Some tempOutputPath))
         | _ =>
             Eff.log "WARN" "Invalid request: URL missing or invalid" ;;;
             respond 400 (BodyError "URL is required and must be a string" None None)
         end
     end)
    (catch_block env originalUrl startTime None None).

End WithParser.

End Route.

(** ** utils/videoUtils.js *)

Module VideoUtils.

(** *** Frame sampling *)

Inductive ProbeOutcome :=
| ProbeFailed (err : JsError)
| ProbeOk (formatDuration streamDuration : JsNum.JsNumber).

(** The duration the probe resolves with: [Number.isFinite] picks the
    format duration, else the stream duration, else 0. *)
Definition probedDuration (formatDuration streamDuration : JsNum.JsNumber) : Q :=
  match formatDuration with
  | JsNum.Num q => q
  | _ =>
      match streamDuration with
      | JsNum.Num q => q
      | _ => 0%Q
      end
  end.

Definition hasDuration (videoDuration : Q) : bool := Qltb 0 videoDuration.

(** [Math.min(maxFrames, Math.max(0, Math.ceil(videoDuration / intervalSeconds)))],
    or 1 without a duration; a division by zero gives [Infinity]. *)
Definition frameCount (videoDuration intervalSeconds : Q) (maxFrames : Z) : Z :=
  if hasDuration videoDuration then
    if Qeq_bool intervalSeconds 0 then maxFrames
    else Z.min maxFrames (Z.max 0 (Qceiling (videoDuration / intervalSeconds)))
  else 1.

(** The [for] loop: [steps] iterations are left, [i] is the counter. *)
Fixpoint sampleLoop (videoDuration intervalSeconds : Q) (steps : nat) (i : Z)
  : list (Z * Q) :=
  match steps with
  | O => []
  | S n =>
      let timestamp :=
        if hasDuration videoDuration then (inject_Z i * intervalSeconds)%Q else 0%Q in
      if hasDuration videoDuration && Qle_bool videoDuration timestamp then []
      else (i, timestamp) :: sampleLoop videoDuration intervalSeconds n (i + 1)
  end.

(** The frames the loop asks for: index and timestamp. *)
Definition samplePlan (videoDuration intervalSeconds : Q) (maxFrames : Z)
  : list (Z * Q) :=
  sampleLoop videoDuration intervalSeconds
    (Z.to_nat (frameCount videoDuration intervalSeconds maxFrames)) 0.


Definition framePath (outputDir : string) (frame : Z * Q) : string :=
  Js.path_join outputDir
    ("frame_" ++ JsNum.decimal (fst frame) ++ "_"
       ++ JsNum.toFixed 1 (snd frame) ++ "s.jpg").

Record FrameOptions := {
  fo_intervalSeconds : option Q;
  fo_maxFrames : option Z;
  fo_ffmpegPath : option string
}.

(** The grabs all start before any is awaited; each writes its frame or
    fails.  The first failure, if any, is what [Promise.all] rejects with. *)
Fixpoint runGrabs (grab : Z -> JsError + N) (outputDir : string)
    (plan : list (Z * Q)) : Eff.M (option JsError) :=
  match plan with
  | [] => Eff.ret None
  | frame :: rest =>
      first <-
        match grab (fst frame) with
        | inr bytes =>
            Eff.writeFile (framePath outputDir frame) bytes ;;;
            Eff.log "INFO" "Frame extracted" ;;;
            Eff.ret None
        | inl err =>
            Eff.log "ERROR" "Frame extraction error" ;;;
            Eff.ret (Some err)
        end ;;
      others <- runGrabs grab outputDir rest ;;
      Eff.ret (match first with Some e => Some e | None => others end)
  end.

(** [extractFrames(videoPath, outputDir, options)]; the directory itself
    is not part of the disk model. *)
Definition extractFrames (clock : nat -> Z) (probe : ProbeOutcome)
    (grab : Z -> JsError + N) (videoPath outputDir : string)
    (options : FrameOptions) : Eff.M (list string) :=
  startTime <- Eff.Date_now clock ;;
  let intervalSeconds := default (5 # 1) (fo_intervalSeconds options) in
  let maxFrames := default 10%Z (fo_maxFrames options) in
  Eff.log "INFO" "Extracting frames from video" ;;;
  match probe with
  | ProbeFailed err => Eff.throw err
  | ProbeOk formatDuration streamDuration =>
      let videoDuration := probedDuration formatDuration streamDuration in
      Eff.log "INFO" "Video duration retrieved" ;;;
      let plan := samplePlan videoDuration intervalSeconds maxFrames in
      let framePaths := map (framePath outputDir) plan in
      failure <- runGrabs grab outputDir plan ;;
      match failure with
      | Some err => Eff.throw err
      | None =>
          endTime <- Eff.Date_now clock ;;
          Eff.log "INFO" "Piece extraction completed" ;;;
          Eff.ret framePaths
      end
  end.

(** *** Aggregation *)

(** The fields of a frame's analysis the aggregation reads.  [None] is a
    field that is missing or [null]; for the two arrays it also covers a
    value that is not an array. *)
Record People := {
  count : option Q;
  details : option (list Json)
}.

Record Location := {
  loc_type : option string;
  description : option string
}.

Record Analysis := {
  people : option People;
  activities : option (list string);
  location : option Location;
  objects : option (list string)
}.

Record FrameAnalysis := {
  frameIndex : nat;
  timestamp : Q;
  analysis : Analysis;
  tokenUsage : TokenUsage
}.

Record PeopleCount := {
  min : JsNum.JsNumber;
  max : JsNum.JsNumber;
  average : JsNum.JsNumber
}.

Record Locations := {
  all : list (option string);
  mostCommon : string
}.

(** [locations] is [None] for the empty array of the zero-frame result,
    which also has no [peopleDetails]. *)
Record Aggregated := {
  peopleCount : PeopleCount;
  ag_activities : list string;
  locations : option Locations;
  commonObjects : list string;
  peopleDetails : option (list Json)
}.

(** [fa.analysis?.people?.count || 0]. *)
Definition countOrZero (fa : FrameAnalysis) : option Q :=
  match people (analysis fa) with
  | Some p =>
      match count p with
      | Some c => if JsValue.Qnonzero c then Some c else Some 0%Q
      | None => Some 0%Q
      end
  | None => Some 0%Q
  end.

(** [count !== null && count !== undefined]. *)
Definition notNullish (c : option Q) : bool :=
  match c with
  | Some _ => true
  | None => false
  end.

Definition peopleCounts (frameAnalyses : list FrameAnalysis) : list Q :=
  omap id (List.filter notNullish (map countOrZero frameAnalyses)).

(** [Math.min(...xs)] and [Math.max(...xs)]. *)
Definition Math_min (xs : list Q) : JsNum.JsNumber :=
  match xs with
  | [] => JsNum.Infinity false
  | x :: rest => JsNum.Num (fold_left Qmin rest x)
  end.

Definition Math_max (xs : list Q) : JsNum.JsNumber :=
  match xs with
  | [] => JsNum.Infinity true
  | x :: rest => JsNum.Num (fold_left Qmax rest x)
  end.

(** [xs.reduce((a, b) => a + b, 0) / xs.length]. *)
Definition mean (xs : list Q) : JsNum.JsNumber :=
  match xs with
  | [] => JsNum.NaN
  | _ => JsNum.Num (fold_left Qplus xs 0 / inject_Z (Z.of_nat (List.length xs)))%Q
  end.

(** [Array.from(new Set(xs))]: first occurrences, in order. *)
Fixpoint setAdd {A} (eqb : A -> A -> bool) (x : A) (seen : list A) : list A :=
  match seen with
  | [] => [x]
  | y :: rest => if eqb y x then seen else y :: setAdd eqb x rest
  end.

Definition arrayFromSet {A} (eqb : A -> A -> bool) (xs : list A) : list A :=
  fold_left (fun seen x => setAdd eqb x seen) xs [].

Definition option_string_eqb (a b : option string) : bool :=
  match a, b with
  | Some x, Some y => String.eqb x y
  | None, None => true
  | _, _ => false
  end.

(** [analysis.location.type || analysis.location.description]. *)
Definition locationLabel (l : Location) : option string :=
  if Js.truthy (loc_type l) then loc_type l else description l.

Definition allLocations (frameAnalyses : list FrameAnalysis) : list (option string) :=
  omap (fun fa => locationLabel <$> location (analysis fa)) frameAnalyses.

(** The name of the property a label is tallied under. *)
Definition propertyKey (label : option string) : string :=
  default "undefined" label.

(** [locationFrequency[loc] = (locationFrequency[loc] || 0) + 1] on the
    table of own properties, kept in the order the keys were created.
    (Keys that look like array indices, which [Object.keys] lists first,
    and names [Object.prototype] defines are outside the model.) *)
Fixpoint bump (loc : string) (table : list (string * nat)) : list (string * nat) :=
  match table with
  | [] => [(loc, 1%nat)]
  | (k, n) :: rest =>
      if String.eqb k loc then (k, S n) :: rest else (k, n) :: bump loc rest
  end.

Definition locationFrequency (keys : list string) : list (string * nat) :=
  fold_left (fun table loc => bump loc table) keys [].

Fixpoint tally (table : list (string * nat)) (k : string) : option nat :=
  match table with
  | [] => None
  | (k', n) :: rest => if String.eqb k' k then Some n else tally rest k
  end.

(** [a > b] on two table reads; a comparison with [undefined] is false. *)
Definition greater (a b : option nat) : bool :=
  match a, b with
  | Some x, Some y => (y <? x)%nat
  | _, _ => false
  end.

(** [Object.keys(locationFrequency).reduce((a, b) =>
      locationFrequency[a] > locationFrequency[b] ? a : b, "unknown")]. *)
Definition mostCommonLocation (table : list (string * nat)) : string :=
  fold_left (fun a b => if greater (tally table a) (tally table b) then a else b)
    (map fst table) "unknown".

Definition concatDetails (frameAnalyses : list FrameAnalysis) : list Json :=
  concat (omap (fun fa => p ← people (analysis fa); details p) frameAnalyses).

Definition aggregateFrameAnalyses (frameAnalyses : list FrameAnalysis) : Aggregated :=
  match frameAnalyses with
  | [] =>
      {| peopleCount := {| min := JsNum.Num 0; max := JsNum.Num 0;
                           average := JsNum.Num 0 |};
         ag_activities := [];
         locations := None;
         commonObjects := [];
         peopleDetails := None |}
  | _ =>
      let counts := peopleCounts frameAnalyses in
      let labels := allLocations frameAnalyses in
      {| peopleCount := {| min := Math_min counts; max := Math_max counts;
                           average := mean counts |};
         ag_activities :=
           arrayFromSet String.eqb
             (concat (omap (fun fa => activities (analysis fa)) frameAnalyses));
         locations :=
           Some {| all := arrayFromSet option_string_eqb labels;
                   mostCommon :=
                     mostCommonLocation (locationFrequency (map propertyKey labels)) |};
         commonObjects :=
           arrayFromSet String.eqb
             (concat (omap (fun fa => objects (analysis fa)) frameAnalyses));
         peopleDetails := Some (concatDetails frameAnalyses) |}
  end.

(** *** Frame analysis *)

Record AnalysisOptions := {
  intervalSeconds : option Q;
  maxFrames : option Z;
  ffmpegPath : option string;
  customPrompt : option string
}.

(** Everything [analyzeVideoContent] gets from outside during one call. *)
Record VideoEnv := {
  clock : nat -> Z;
  tmpdir : string;
  random_digits : list nat;
  probe : ProbeOutcome;
  grab : Z -> JsError + N;
  clientReady : bool;
  vision : nat -> ProviderOutcome;
  summaryAnswer : ProviderOutcome;
  unlinkError : string -> option string
}.

Record UsageTotals := {
  us_frames : TokenUsage;
  us_summary : TokenUsage;
  us_total : TokenUsage
}.

Record VideoMetadata := {
  framesAnalyzed : nat;
  md_intervalSeconds : Q;
  processingTimeMs : Z;
  md_tokenUsage : UsageTotals
}.

Record VideoAnalysis := {
  summary : option Json;
  frameAnalyses : list FrameAnalysis;
  aggregatedAnalysis : Aggregated;
  metadata : VideoMetadata
}.

Definition sumUsage (frameAnalyses : list FrameAnalysis) : TokenUsage :=
  fold_left (fun sum fa => Route.addUsage sum (tokenUsage fa)) frameAnalyses zeroUsage.

Fixpoint unlinkAll (unlinkError : string -> option string) (paths : list string)
  : Eff.M unit :=
  match paths with
  | [] => Eff.ret tt
  | p :: rest => Eff.unlinkSync unlinkError p ;;; unlinkAll unlinkError rest
  end.

Section WithParser.

(** [JSON.parse], and [JSON.parse] followed by the reading of the
    fields of an [Analysis]; [None] stands for the [SyntaxError]. *)
Variable JSON_parse : string -> option Json.
Variable JSON_parse_analysis : string -> option Analysis.

Definition parseAnalysis (content : option string) : Eff.M Analysis :=
  match content with
  | Some s =>
      match JSON_parse_analysis s with
      | Some v => Eff.ret v
      | None => Eff.throw (Error "Unexpected token in JSON")
      end
  | None => Eff.throw (Error "undefined is not valid JSON")
  end.

(** The loop over the frames: [i] is the index of the head of
    [framePaths], [frameAnalyses] what was pushed so far. *)
Fixpoint analyzeFrames (env : VideoEnv) (interval : Q) (framePaths : list string)
    (i : nat) (frameAnalyses : list FrameAnalysis) : Eff.M (list FrameAnalysis) :=
  match framePaths with
  | [] => Eff.ret frameAnalyses
  | framePath :: rest =>
      let timestamp := (inject_Z (Z.of_nat i) * interval)%Q in
      pushed <-
        Eff.try_catch
          (image <- Eff.statSync framePath ;;
           stats <- Eff.statSync framePath ;;
           Eff.log "INFO" "Analyzing frame with OpenAI Vision" ;;;
           Eff.emit (EvChat "frame") ;;;
           match vision env i with
           | ProviderRejects err => Eff.throw err
           | ProviderAnswers content usage =>
               analysis <- parseAnalysis content ;;
               usage <- OpenaiUtils.defined "prompt_tokens" usage ;;
               Eff.log "INFO" "Frame analysis completed" ;;;
               Eff.ret (frameAnalyses ++
                          [{| frameIndex := i; timestamp := timestamp;
                              analysis := analysis; tokenUsage := usage |}])%list
           end)
          (fun frameError =>
             Eff.log "ERROR" "Error analyzing frame" ;;;
             Eff.ret frameAnalyses) ;;
      analyzeFrames env interval rest (S i) pushed
  end.

(** Step 4.  [videoSummary] is assigned before the usage counters are
    read, so the handler is attached once for each of the two stretches
    of the [try] block. *)
Definition summarize (env : VideoEnv) : Eff.M (option Json * TokenUsage) :=
  Eff.try_catch
    (Eff.emit (EvChat "video summary") ;;;
     match summaryAnswer env with
     | ProviderRejects err => Eff.throw err
     | ProviderAnswers content usage =>
         videoSummary <- OpenaiUtils.parse JSON_parse content ;;
         Eff.try_catch
           (usage <- OpenaiUtils.defined "prompt_tokens" usage ;;
            Eff.ret (Some videoSummary, usage))
           (fun summaryError =>
              Eff.log "ERROR" "Error generating video summary" ;;;
              Eff.ret (Some videoSummary, zeroUsage))
     end)
    (fun summaryError =>
       Eff.log "ERROR" "Error generating video summary" ;;;
       Eff.ret (None, zeroUsage)).

(** The [finally] block; the directory made at the start is there. *)
Definition cleanupFramesDir (unlinkError : string -> option string)
    (tempDir : string) : Eff.M unit :=
  Eff.try_catch
    (files <- Eff.readdirSync tempDir ;;
     unlinkAll unlinkError files ;;;
     Eff.log "INFO" "Temporary frames directory cleaned up")
    (fun cleanupError => Eff.log "ERROR" "Error cleaning up frames directory").

(** [analyzeVideoContent(videoPath, options)]. *)
Definition analyzeVideoContent (env : VideoEnv) (videoPath : string)
    (options : AnalysisOptions) : Eff.M VideoAnalysis :=
  startTime <- Eff.Date_now (clock env) ;;
  let interval := default (5 # 1) (intervalSeconds options) in
  let maxFrames := default 6%Z (maxFrames options) in
  Eff.log "INFO" "Starting video content analysis" ;;;
  now <- Eff.Date_now (clock env) ;;
  let tempDir :=
    Js.path_join (tmpdir env)
      ("video-frames-" ++ JsNum.decimal now ++ "-"
         ++ FileUtils.substring7 (FileUtils.random_text (random_digits env))) in
  Eff.finally
    (framePaths <-
       extractFrames (clock env) (probe env) (grab env) videoPath tempDir
         {| fo_intervalSeconds := Some interval; fo_maxFrames := Some maxFrames;
            fo_ffmpegPath := ffmpegPath options |} ;;
     if (List.length framePaths =? 0)%nat then
       Eff.log "ERROR" "No frames were extracted; skipping vision analysis" ;;;
       endTime <- Eff.Date_now (clock env) ;;
       Eff.ret {| summary := None;
                  frameAnalyses := [];
                  aggregatedAnalysis := aggregateFrameAnalyses [];
                  metadata :=
                    {| framesAnalyzed := 0;
                       md_intervalSeconds := interval;
                       processingTimeMs := (endTime - startTime)%Z;
                       md_tokenUsage :=
                         {| us_frames := zeroUsage; us_summary := zeroUsage;
                            us_total := zeroUsage |} |} |}
     else
       Eff.log "INFO" "Analyzing extracted frames with OpenAI Vision" ;;;
       OpenaiUtils.getOpenAIClient (clientReady env) ;;;
       frameAnalyses <- analyzeFrames env interval framePaths 0 [] ;;
       let aggregatedAnalysis := aggregateFrameAnalyses frameAnalyses in
       summarized <- summarize env ;;
       endTime <- Eff.Date_now (clock env) ;;
       Eff.log "INFO" "Video content analysis completed" ;;;
       Eff.ret {| summary := fst summarized;
                  frameAnalyses := frameAnalyses;
                  aggregatedAnalysis := aggregatedAnalysis;
                  metadata :=
                    {| framesAnalyzed := List.length frameAnalyses;
                       md_intervalSeconds := interval;
                       processingTimeMs := (endTime - startTime)%Z;
                       md_tokenUsage :=
                         {| us_frames := sumUsage frameAnalyses;
                            us_summary := snd summarized;
                            us_total :=
                              Route.addUsage (sumUsage frameAnalyses) (snd summarized) |} |} |})
    (cleanupFramesDir (unlinkError env) tempDir).

End WithParser.

End VideoUtils.

(** ** utils/audioUtils.js, the earlier copy kept beside it *)

Module LegacyAudioUtils.

Definition audioExtensions : list string :=
  [".mp3"; ".mp4"; ".mpeg"; ".mpga"; ".m4a"; ".wav"; ".webm"; ".ogg"; ".flac"].

Definition audioMimeTypes : list string :=
  ["audio/mpeg"; "audio/mp3"; "audio/mp4"; "audio/m4a"; "audio/wav";
   "audio/webm"; "audio/ogg"; "audio/flac"; "audio/x-m4a"].

(** [isAudioFile(filePath, contentType)]: the extension decides first. *)
Definition isAudioFile (filePath : string) (contentType : option string) : bool :=
  let ext := Js.toLowerCase (Js.extname filePath) in
  if Js.array_includes audioExtensions ext then true
  else if Js.truthy contentType
          && AudioUtils.some_included audioMimeTypes
               (Js.toLowerCase (default "" contentType))
  then true
  else false.

(** [extractAudioFromVideo]: the steps of the later copy, but the object
    it returns is written with the shorthand [outputSizeMB], a variable
    that no scope declares (the local one is [outputSizeInMB]); reading
    it raises a [ReferenceError]. *)
Definition extractAudioFromVideo (clock : nat -> Z) (outcome : AudioUtils.ExtractOutcome)
    (inputPath outputPath : string) (ffmpegPath : string)
  : Eff.M AudioUtils.ExtractionResult :=
  startTime <- Eff.Date_now clock ;;
  Eff.log "INFO" "Extracting audio from video" ;;;
  Eff.emit (EvExtract inputPath outputPath) ;;;
  match outcome with
  | AudioUtils.ExtractFailed err written =>
      match written with
      | Some n => Eff.writeFile outputPath n
      | None => Eff.ret tt
      end ;;;
      Eff.throw err
  | AudioUtils.ExtractOk bytes =>
      Eff.writeFile outputPath bytes ;;;
      endTime <- Eff.Date_now clock ;;
      outputStats <- Eff.statSync outputPath ;;
      inputStats <- Eff.statSync inputPath ;;
      Eff.log "INFO" "Audio extracted successfully" ;;;
      Eff.throw (Error "outputSizeMB is not defined")
  end.

End LegacyAudioUtils.

(** ** utils/config.js *)

Module Config.

Definition ffmpegPaths : list string :=
  ["/usr/local/bin/ffmpeg"; "/opt/homebrew/bin/ffmpeg"; "/usr/bin/ffmpeg"; "ffmpeg"].

(** What [configureFFmpeg] does to the outside, in order. *)
Inductive Action :=
| ExistsSync (path : string)
| ExecSync (command : string)
| SetFfmpegPath (path : string)
| ConsoleLog (found : string)
| ConsoleWarn.

(** The callback of [find]: [onDisk] is [fs.existsSync], [whichOk] says
    that [which ffmpeg] exits with 0. *)
Definition test (onDisk : string -> bool) (whichOk : bool) (testPath : string)
  : bool * list Action :=
  if String.eqb testPath "ffmpeg" then (whichOk, [ExecSync "which ffmpeg"])
  else (onDisk testPath, [ExistsSync testPath]).

(** [paths.find(callback)]: the callback runs until it answers true. *)
Fixpoint find (onDisk : string -> bool) (whichOk : bool) (paths : list string)
  : option string * list Action :=
  match paths with
  | [] => (None, [])
  | p :: rest =>
      let '(ok, acts) := test onDisk whichOk p in
      if ok then (Some p, acts)
      else let '(found, more) := find onDisk whichOk rest in (found, (acts ++ more)%list)
  end.

Definition configureFFmpeg (onDisk : string -> bool) (whichOk : bool)
  : option string * list Action :=
  let '(foundPath, acts) := find onDisk whichOk ffmpegPaths in
  let ffmpegPath :=
    match foundPath with
    | Some p => if String.eqb p "ffmpeg" then Some "ffmpeg"
                else if Js.truthy foundPath then foundPath else None
    | None => None
    end in
  match ffmpegPath with
  | Some (String _ _ as p) =>
      (ffmpegPath,
       (acts ++ (if negb (String.eqb p "ffmpeg") then [SetFfmpegPath p] else [])
             ++ [ConsoleLog p])%list)
  | _ => (ffmpegPath, (acts ++ [ConsoleWarn])%list)
  end.

End Config.

(** ** utils/openaiUtils.js: the client kept by the module *)

Module OpenaiClient.

(** The environment variable and the module's [openaiClient], a client
    being told from another by the key it was built with. *)
Record Process := {
  OPENAI_API_KEY : option string;
  openaiClient : option string
}.

Definition getOpenAIClient (p : Process) : (JsError + string) * Process :=
  match openaiClient p with
  | Some client => (inr client, p)
  | None =>
      match OPENAI_API_KEY p with
      | Some (String _ _ as apiKey) =>
          (inr apiKey, {| OPENAI_API_KEY := OPENAI_API_KEY p; openaiClient := Some apiKey |})
      | _ =>
          (inl (Error "OPENAI_API_KEY is not set. Please set it in your environment or pass it to createTranscriptionRouter."), p)
      end
  end.

End OpenaiClient.

(** ** index.js of the package *)

Module Package.

Record Options := {
  openaiApiKey : option string;
  basePath : option string
}.

(** [createTranscriptionRouter(options)]: the key given is written to the
    environment, then ffmpeg is looked for. *)
Definition createTranscriptionRouter (options : Options) (onDisk : string -> bool)
    (whichOk : bool) (p : OpenaiClient.Process)
  : OpenaiClient.Process * list Config.Action :=
  let p' :=
    if Js.truthy (openaiApiKey options)
    then {| OpenaiClient.OPENAI_API_KEY := openaiApiKey options;
            OpenaiClient.openaiClient := OpenaiClient.openaiClient p |}
    else p in
  (p', snd (Config.configureFFmpeg onDisk whichOk)).

End Package.

(** ** The classifier as the specification words it *)

Module Spec.

Inductive FileKind := AudioOnly | NeedsExtraction.

Definition audioOnlySet : list string :=
  ["mp3"; "wav"; "m4a"; "flac"; "aac"; "ogg"; "mpga"].

Definition ambiguousSet : list string := ["mp4"; "mpeg"; "webm"].

(** The extension of a path, lower case, without its dot. *)
Definition extension (path : string) : option string :=
  match Js.toLowerCase (Js.extname path) with
  | String "." rest => Some rest
  | _ => None
  end.

Definition inSet (set : list string) (ext : option string) : bool :=
  match ext with
  | Some e => existsb (String.eqb e) set
  | None => false
  end.

(** A content type matches a list of MIME patterns when, in lower case,
    it contains one of them. *)
Definition matches (patterns : list string) (contentType : option string) : bool :=
  match contentType with
  | Some ct => existsb (Js.includes (Js.toLowerCase ct)) patterns
  | None => false
  end.

(** The five steps of the precedence, highest first. *)
Definition classify (path : string) (contentType : option string) : FileKind :=
  if matches AudioUtils.videoMimeTypes contentType then NeedsExtraction
  else if matches AudioUtils.audioMimeTypes contentType then AudioOnly
  else if inSet audioOnlySet (extension path) then AudioOnly
  else if inSet ambiguousSet (extension path) then NeedsExtraction
  else NeedsExtraction.

Definition kindOf (isAudio : bool) : FileKind :=
  if isAudio then AudioOnly else NeedsExtraction.

(** The decision the content type alone gives. *)
Definition audioByContentType (contentType : option string) : bool :=
  negb (matches AudioUtils.videoMimeTypes contentType)
  && matches AudioUtils.audioMimeTypes contentType.

End Spec.

(** * Vocabulary of the properties *)

Definition chars (s : string) : list ascii := list_ascii_of_string s.

Definition noSlash (s : string) : Prop := Forall (fun c => c <> "/"%char) (chars s).

Definition unseen (e : Z) : Js.ExtScan :=
  {| Js.startDot := -1; Js.startPart := 0; Js.end_ := e;
     Js.matchedSlash := false; Js.preDotState := 0 |}.

Definition isResponse (e : Event) : bool :=
  match e with
  | EvRespond _ _ => true
  | _ => false
  end.

(** A stretch of the trace without a response. *)
Definition quiet (evs : list Event) : Prop :=
  Forall (fun e => isResponse e = false) evs.

(** The deletion of [p] was attempted: [cleanupFiles] looked for it. *)
Definition attempted (p : string) (evs : list Event) : Prop :=
  exists found, In (EvExists p found) evs.

Definition responses (t : list Event) : list Event := List.filter isResponse t.

(** The run of [m] from [w] adds a quiet stretch to the trace. *)
Definition quietly (w w' : World) : Prop :=
  exists evs, trace w' = (trace w ++ evs)%list /\ quiet evs.

(** The temporary paths of a request that gets as far as
    [createTempPaths]: its body holds a non-empty text as [url] and the
    API key is set.  The handler reads the clock once before. *)
Definition requestPaths (env : Route.Env) (req : Route.Request) (w : World)
  : option FileUtils.TempPaths :=
  match Route.body req with
  | Some b =>
      match Route.url b with
      | RString (String _ _) =>
          if Route.apiKey env
          then Some (FileUtils.createTempPaths (Route.tmpdir env)
                       (Route.clock env (S (clock_reads w))) (Route.random_digits env))
          else None
      | _ => None
      end
  | None => None
  end.

Module Scenario.

Definition parser (s : string) : option Json :=
  if String.eqb s "{}" then Some (JObject []) else None.

Definition answers : ProviderOutcome :=
  ProviderAnswers (Some "{}")
    (Some {| promptTokens := 10; completionTokens := 5; totalTokens := 15 |}).

Definition MiB (n : N) : N := (n * 1048576)%N.

(** A server that sends [bytes] declared as [header]; ffmpeg, when it
    runs, writes [extracted] bytes; every provider call succeeds. *)
Definition env (header : option string) (bytes extracted : N) : Route.Env :=
  {| Route.apiKey := true;
     Route.ffmpegPath := Some "/usr/bin/ffmpeg";
     Route.tmpdir := "/tmp";
     Route.random_digits := [1; 2; 3; 4; 5; 6; 7; 8; 9; 10; 11]%nat;
     Route.clock := fun k => (1700000000000 + Z.of_nat k)%Z;
     Route.download := FileUtils.DownloadOk bytes header;
     Route.extraction := AudioUtils.ExtractOk extracted;
     Route.transcription := inr (Some "hello world");
     Route.sentimentAnswer := answers;
     Route.summaryAnswer := answers;
     Route.unlinkError := fun _ => None |}.

Definition request (url : string) : Route.Request :=
  {| Route.body := Some {| Route.url := RString url;
                           Route.summarizationPrompt := None |} |}.

Definition start : World := {| files := ∅; clock_reads := 0; trace := [] |}.

Definition run (e : Route.Env) (url : string) : World :=
  snd (Route.transcribe parser e (request url) start).

End Scenario.

Definition uploads (t : list Event) : list (string * option N) :=
  omap (fun e => match e with EvUpload p n => Some (p, n) | _ => None end) t.

(** The metadata of the success response a trace ends with. *)
Definition reportedMetadata (t : list Event) : option Metadata :=
  match responses t with
  | [EvRespond 200 (BodyOk _ _ _ _ md)] => Some md
  | _ => None
  end.




(** The trace holds a look for [p]. *)
Definition lookedFor (p : string) (t : list Event) : bool :=
  existsb (fun e => match e with
                    | EvExists q _ => String.eqb p q
                    | _ => false
                    end) t.








Module Frames.

Definition withCount (i : nat) (c : option Q) : VideoUtils.FrameAnalysis :=
  {| VideoUtils.frameIndex := i;
     VideoUtils.timestamp := inject_Z (Z.of_nat i) * 5;
     VideoUtils.analysis :=
       {| VideoUtils.people := Some {| VideoUtils.count := c; VideoUtils.details := None |};
          VideoUtils.activities := None;
          VideoUtils.location := None;
          VideoUtils.objects := None |};
     VideoUtils.tokenUsage := zeroUsage |}.

Definition at_ (i : nat) (label : string) : VideoUtils.FrameAnalysis :=
  {| VideoUtils.frameIndex := i;
     VideoUtils.timestamp := inject_Z (Z.of_nat i) * 5;
     VideoUtils.analysis :=
       {| VideoUtils.people := None;
          VideoUtils.activities := None;
          VideoUtils.location :=
            Some {| VideoUtils.loc_type := Some label; VideoUtils.description := None |};
          VideoUtils.objects := None |};
     VideoUtils.tokenUsage := zeroUsage |}.

End Frames.

(** The counts the frames supplied, as the specification words the
    reduction: a frame without a count contributes nothing. *)
Definition suppliedCounts (frameAnalyses : list VideoUtils.FrameAnalysis) : list Q :=
  omap (fun fa => p ← VideoUtils.people (VideoUtils.analysis fa); VideoUtils.count p)
    frameAnalyses.

Definition occurrences (keys : list string) (k : string) : nat :=
  count_occ String.string_dec keys k.

(** The claim as it is worded: of the keys tied with the winner, none
    was met before it. *)
Definition firstEncounteredWins (keys : list string) : Prop :=
  let table := VideoUtils.locationFrequency keys in
  let winner := VideoUtils.mostCommonLocation table in
  forall k, In k keys ->
    VideoUtils.tally table k = VideoUtils.tally table winner ->
    exists before after, keys = (before ++ winner :: after)%list /\ ~ In k before.



Module VideoScenario.

Definition emptyAnalysis : VideoUtils.Analysis :=
  {| VideoUtils.people := None; VideoUtils.activities := None;
     VideoUtils.location := None; VideoUtils.objects := None |}.

Definition parse_analysis (s : string) : option VideoUtils.Analysis :=
  if String.eqb s "{}" then Some emptyAnalysis else None.

(** A 12 second video; the provider rejects the second frame. *)
Definition env : VideoUtils.VideoEnv :=
  {| VideoUtils.clock := fun k => (1700000000000 + Z.of_nat k)%Z;
     VideoUtils.tmpdir := "/tmp";
     VideoUtils.random_digits := [1; 2; 3; 4; 5; 6; 7; 8; 9; 10; 11]%nat;
     VideoUtils.probe := VideoUtils.ProbeOk (JsNum.Num 12) JsNum.NaN;
     VideoUtils.grab := fun _ => inr 2048%N;
     VideoUtils.clientReady := true;
     VideoUtils.vision :=
       fun i => if (i =? 1)%nat then ProviderRejects (Error "500 upstream")
                else Scenario.answers;
     VideoUtils.summaryAnswer := Scenario.answers;
     VideoUtils.unlinkError := fun _ => None |}.

Definition options : VideoUtils.AnalysisOptions :=
  {| VideoUtils.intervalSeconds := None; VideoUtils.maxFrames := None;
     VideoUtils.ffmpegPath := None; VideoUtils.customPrompt := None |}.

Definition framePaths : list string := ["/f/frame_0.jpg"; "/f/frame_1.jpg"; "/f/frame_2.jpg"].


End VideoScenario.

(** ** Vocabulary of the further properties *)

Fixpoint all_digits (s : string) : bool :=
  match s with
  | EmptyString => true
  | String c rest => JsNum.is_digit c && all_digits rest
  end.

(** The number a run of digits denotes, after the digits read before it
    gave [acc]. *)
Fixpoint digits_value (s : string) (acc : Z) : Z :=
  match s with
  | EmptyString => acc
  | String c rest => digits_value rest (acc * 10 + JsNum.digit_val c)%Z
  end.

Fixpoint blank (s : string) : bool :=
  match s with
  | EmptyString => true
  | String c rest => JsNum.is_space c && blank rest
  end.


(** A call of [getOpenAIClient] finds or can build a client. *)
Definition clientReady (p : OpenaiClient.Process) : bool :=
  match OpenaiClient.openaiClient p with
  | Some _ => true
  | None => Js.truthy (OpenaiClient.OPENAI_API_KEY p)
  end.

(** The three standard locations of ffmpeg, in the order they are tried. *)
Definition standardLocations : list string :=
  ["/usr/local/bin/ffmpeg"; "/opt/homebrew/bin/ffmpeg"; "/usr/bin/ffmpeg"].

(** The activities, or the objects, the frames name. *)
Definition named (field : VideoUtils.Analysis -> option (list string))
    (frameAnalyses : list VideoUtils.FrameAnalysis) (x : string) : Prop :=
  exists fa l, In fa frameAnalyses /\ field (VideoUtils.analysis fa) = Some l /\ In x l.

(** [m] keeps the property [J] of the disk, whatever it returns. *)
Definition keeps {A} (J : gmap string N -> Prop) (m : Eff.M A) : Prop :=
  forall w, J (files w) -> J (files (snd (m w))).

(** Writing or deleting the file at [p] keeps [J]. *)
Definition closedAt (J : gmap string N -> Prop) (p : string) : Prop :=
  forall m, J m -> (forall n, J (<[p := n]> m)) /\ J (delete p m).

(** The disk [m] differs from [m0] at most at [paths]. *)
Definition sameOutside (paths : list string) (m0 m : gmap string N) : Prop :=
  forall q, ~ In q paths -> m !! q = m0 !! q.

(** The two temporary paths of a request, if it gets to make them. *)
Definition tempPaths (env : Route.Env) (req : Route.Request) (w : World) : list string :=
  match requestPaths env req w with
  | Some paths => [FileUtils.inputPath paths; FileUtils.outputPath paths]
  | None => []
  end.

(** An entry of the result of [cleanupFiles] for a file that was there
    and was deleted. *)
Definition cleanedEntry (disk : gmap string N) (e : CleanedFile) : Prop :=
  cf_cleaned e = true /\ cf_error e = None
  /\ cf_sizeBytes e = disk !! cf_path e /\ is_Some (disk !! cf_path e).









(** A call that leaves the process. *)
Definition outsideCall (e : Event) : bool :=
  match e with
  | EvDownload _ _ | EvExtract _ _ | EvUpload _ _ | EvChat _ => true
  | _ => false
  end.




(** [q] is the path of a file below the directory [dir]. *)
Definition under (dir q : string) : bool := Js.startsWith q (dir ++ "/").

(** The directory [analyzeVideoContent] keeps its frames in. *)
Definition framesDir (env : VideoUtils.VideoEnv) (w : World) : string :=
  Js.path_join (VideoUtils.tmpdir env)
    ("video-frames-" ++ JsNum.decimal (VideoUtils.clock env (S (clock_reads w))) ++ "-"
       ++ FileUtils.substring7 (FileUtils.random_text (VideoUtils.random_digits env))).






(** * Properties *)

(** ** The built-ins on examples *)

Example extname_plain : Js.extname "/tmp/a/index.coffee.md" = ".md".
Proof. reflexivity. Qed.

Example extname_hidden : Js.extname "/tmp/.bashrc" = "".
Proof. reflexivity. Qed.

Example extname_trailing_dot : Js.extname "index." = ".".
Proof. reflexivity. Qed.

Example extname_dotdot : Js.extname "a/.." = "".
Proof. reflexivity. Qed.

Example extname_trailing_slash : Js.extname "dir/file.MP3//" = ".MP3".
Proof. reflexivity. Qed.

Example includes_inside :
  Js.includes (Js.toLowerCase "Video/MP4; codecs=avc1") "video/mp4" = true.
Proof. reflexivity. Qed.

Example toFixed2_rounds : JsNum.toFixed2 (26214401 # 1048576) = "25.00".
Proof. reflexivity. Qed.

Example toFixed2_half_up : JsNum.toFixed2 (5 # 1000) = "0.01".
Proof. reflexivity. Qed.

Example toFixed1_timestamp : JsNum.toFixed 1 25 = "25.0".
Proof. reflexivity. Qed.

Example parseFloat_prefix :
  JsNum.parseFloat "  12.5abc" = JsNum.Num (inject_Z 12 + inject_Z 5 * / inject_Z 10).
Proof. reflexivity. Qed.

Example isAudioFile_by_extension : AudioUtils.isAudioFile "talk.MP3" None = true.
Proof. reflexivity. Qed.

Example isAudioFile_video_type_wins :
  AudioUtils.isAudioFile "talk.mp3" (Some "video/mp4") = false.
Proof. reflexivity. Qed.

Example wordCount_spaces : OpenaiUtils.wordCount "  hello   big world " = 3%nat.
Proof. reflexivity. Qed.

(** ** The classifier *)

Lemma audioOnly_ext (ext : string) :
  Js.array_includes AudioUtils.audioOnlyExtensions ext
  = Spec.inSet Spec.audioOnlySet
      (match ext with String "." rest => Some rest | _ => None end).
Proof.
  destruct ext as [|c rest]; [reflexivity|].
  unfold Js.array_includes, AudioUtils.audioOnlyExtensions.
  destruct (Ascii.eqb_spec c ".") as [->|Hc].
  - cbn [existsb Spec.inSet Spec.audioOnlySet String.eqb].
    rewrite !Ascii.eqb_refl.
    destruct (rest =? "mp3")%string, (rest =? "mpga")%string,
      (rest =? "m4a")%string, (rest =? "wav")%string, (rest =? "ogg")%string,
      (rest =? "flac")%string, (rest =? "aac")%string; reflexivity.
  - cbn [existsb String.eqb].
    apply Ascii.eqb_neq in Hc. rewrite !Hc.
    destruct c as [[] [] [] [] [] [] [] []]; try reflexivity.
    discriminate Hc.
Qed.

Lemma ambiguous_ext (ext : string) :
  Js.array_includes AudioUtils.ambiguousExtensions ext
  = Spec.inSet Spec.ambiguousSet
      (match ext with String "." rest => Some rest | _ => None end).
Proof.
  destruct ext as [|c rest]; [reflexivity|].
  unfold Js.array_includes, AudioUtils.ambiguousExtensions.
  destruct (Ascii.eqb_spec c ".") as [->|Hc].
  - cbn [existsb Spec.inSet Spec.ambiguousSet String.eqb].
    rewrite !Ascii.eqb_refl. reflexivity.
  - cbn [existsb String.eqb].
    apply Ascii.eqb_neq in Hc. rewrite !Hc.
    destruct c as [[] [] [] [] [] [] [] []]; try reflexivity.
    discriminate Hc.
Qed.

(** ** The extension of the temporary input path *)

Lemma append_cons (c : ascii) (a b : string) : String c a ++ b = String c (a ++ b).
Proof. reflexivity. Qed.

Lemma append_nil (b : string) : "" ++ b = b.
Proof. reflexivity. Qed.

Lemma chars_app (a b : string) : chars (a ++ b) = (chars a ++ chars b)%list.
Proof.
  unfold chars. induction a as [|c a IH]; [reflexivity|].
  rewrite append_cons. cbn. f_equal. exact IH.
Qed.

Lemma noSlash_app (a b : string) : noSlash a -> noSlash b -> noSlash (a ++ b).
Proof. unfold noSlash. rewrite chars_app. apply Forall_app_2. Qed.

Lemma noSlash_substring (s : string) :
  noSlash s -> forall n m, noSlash (String.substring n m s).
Proof.
  unfold noSlash. induction s as [|c s IH]; intros H n m.
  - destruct n, m; constructor.
  - inversion H; subst.
    destruct n as [|n]; destruct m as [|m]; cbn; try constructor; auto.
Qed.

Lemma mark_end_kept (i : Z) (st : Js.ExtScan) :
  (0 <= Js.end_ st)%Z -> Js.mark_end i st = st.
Proof.
  intros H. unfold Js.mark_end.
  destruct (Z.eqb_spec (Js.end_ st) (-1)); [lia | reflexivity].
Qed.

(** Once the dot and the end are found and a character was seen before
    the dot, the rest of the scan keeps both. *)
Lemma ext_scan_settled (l : list ascii) : forall st,
  (0 <= Js.startDot st)%Z -> (0 <= Js.end_ st)%Z -> Js.matchedSlash st = false ->
  Js.preDotState st <> 0%Z ->
  Js.startDot (Js.ext_scan l st) = Js.startDot st
  /\ Js.end_ (Js.ext_scan l st) = Js.end_ st
  /\ Js.preDotState (Js.ext_scan l st) <> 0%Z.
Proof.
  induction l as [|c l IH]; intros st Hd He Hm Hp; [cbn; auto|].
  cbn [Js.ext_scan]. rewrite Hm. cbn [negb].
  destruct (Ascii.eqb c "/"); [cbn; auto|].
  rewrite mark_end_kept by assumption.
  destruct (Ascii.eqb c ".").
  - unfold Js.see_dot.
    destruct (Z.eqb_spec (Js.startDot st) (-1)); [lia|].
    destruct (IH {| Js.startDot := Js.startDot st; Js.startPart := Js.startPart st;
                    Js.end_ := Js.end_ st; Js.matchedSlash := Js.matchedSlash st;
                    Js.preDotState := 1 |}) as (A & B & C); cbn; auto; lia.
  - unfold Js.see_other.
    destruct (Z.eqb_spec (Js.startDot st) (-1)); [lia|].
    destruct (IH {| Js.startDot := Js.startDot st; Js.startPart := Js.startPart st;
                    Js.end_ := Js.end_ st; Js.matchedSlash := Js.matchedSlash st;
                    Js.preDotState := -1 |}) as (A & B & C); cbn; auto; lia.
Qed.

(** A stretch without separator, then a character that is neither a dot
    nor a separator: the scan is settled whatever follows. *)
Lemma ext_scan_stem (l1 : list ascii) (c : ascii) (l2 : list ascii) : forall st,
  Forall (fun a => a <> "/"%char) l1 -> Ascii.eqb c "/" = false -> Ascii.eqb c "." = false ->
  (0 <= Js.startDot st)%Z -> (0 <= Js.end_ st)%Z -> Js.matchedSlash st = false ->
  Js.startDot (Js.ext_scan (l1 ++ c :: l2) st) = Js.startDot st
  /\ Js.end_ (Js.ext_scan (l1 ++ c :: l2) st) = Js.end_ st
  /\ Js.preDotState (Js.ext_scan (l1 ++ c :: l2) st) <> 0%Z.
Proof.
  induction l1 as [|a l1 IH]; intros st Hl Hc1 Hc2 Hd He Hm.
  - cbn [app Js.ext_scan]. rewrite Hc1, Hc2.
    rewrite mark_end_kept by assumption.
    unfold Js.see_other.
    destruct (Z.eqb_spec (Js.startDot st) (-1)); [lia|].
    destruct (ext_scan_settled l2
                {| Js.startDot := Js.startDot st; Js.startPart := Js.startPart st;
                   Js.end_ := Js.end_ st; Js.matchedSlash := Js.matchedSlash st;
                   Js.preDotState := -1 |}) as (A & B & C); cbn; auto; lia.
  - inversion Hl as [|? ? Ha Hl']; subst.
    cbn [app Js.ext_scan].
    apply Ascii.eqb_neq in Ha. rewrite Ha.
    rewrite mark_end_kept by assumption.
    destruct (Ascii.eqb a ".").
    + unfold Js.see_dot.
      destruct (Z.eqb_spec (Js.startDot st) (-1)); [lia|].
      destruct (IH {| Js.startDot := Js.startDot st; Js.startPart := Js.startPart st;
                      Js.end_ := Js.end_ st; Js.matchedSlash := Js.matchedSlash st;
                      Js.preDotState := 1 |}) as (A & B & C); cbn; auto.
    + unfold Js.see_other.
      destruct (Z.eqb_spec (Js.startDot st) (-1)); [lia|].
      destruct (IH {| Js.startDot := Js.startDot st; Js.startPart := Js.startPart st;
                      Js.end_ := Js.end_ st; Js.matchedSlash := Js.matchedSlash st;
                      Js.preDotState := -1 |}) as (A & B & C); cbn; auto.
Qed.

Lemma ext_scan_first (c : ascii) (rest : list ascii) :
  Ascii.eqb c "/" = false -> Ascii.eqb c "." = false ->
  Js.ext_scan (c :: rest) Js.ext_init
  = Js.ext_scan rest (unseen (Z.of_nat (List.length rest) + 1)).
Proof. intros H1 H2. cbn [Js.ext_scan]. rewrite H1, H2. reflexivity. Qed.

Lemma ext_scan_unseen (c : ascii) (rest : list ascii) (e : Z) :
  Ascii.eqb c "/" = false -> Ascii.eqb c "." = false -> (0 <= e)%Z ->
  Js.ext_scan (c :: rest) (unseen e) = Js.ext_scan rest (unseen e).
Proof.
  intros H1 H2 He. cbn [Js.ext_scan]. rewrite H1, H2.
  cbn [Js.matchedSlash unseen negb].
  rewrite mark_end_kept by exact He. reflexivity.
Qed.

Lemma ext_scan_first_dot (rest : list ascii) (e : Z) :
  (0 <= e)%Z ->
  Js.ext_scan ("."%char :: rest) (unseen e)
  = Js.ext_scan rest
      {| Js.startDot := Z.of_nat (List.length rest); Js.startPart := 0;
         Js.end_ := e; Js.matchedSlash := false; Js.preDotState := 0 |}.
Proof.
  intros He. cbn [Js.ext_scan Ascii.eqb Bool.eqb Js.matchedSlash unseen negb].
  rewrite mark_end_kept by exact He. reflexivity.
Qed.

Lemma substring_skip (p t : string) :
  String.substring (String.length p) (String.length t) (p ++ t) = t.
Proof.
  induction p as [|c p IH].
  - rewrite append_nil. induction t as [|d t IHt]; cbn; [reflexivity|].
    f_equal. exact IHt.
  - rewrite append_cons. cbn. exact IH.
Qed.

Lemma length_chars (s : string) : List.length (chars s) = String.length s.
Proof. induction s; cbn; auto. Qed.

(** A file name whose stem ends with a plain character after its last
    separator and which ends in [.webm] has the extension [.webm]. *)
Lemma extname_webm (pre stem : string) (c : ascii) :
  noSlash stem -> Ascii.eqb c "/" = false -> Ascii.eqb c "." = false ->
  Js.extname (pre ++ String c stem ++ ".webm") = ".webm".
Proof.
  intros Hs Hc1 Hc2.
  set (p := pre ++ String c stem).
  assert (Hpath : pre ++ String c stem ++ ".webm" = p ++ ".webm").
  { unfold p. induction pre as [|a pre IH]; [reflexivity|].
    rewrite !append_cons. f_equal. exact IH. }
  rewrite Hpath. unfold Js.extname.
  fold (chars (p ++ ".webm")). rewrite chars_app.
  rewrite rev_app_distr.
  change (rev (chars ".webm")) with ["m"; "b"; "e"; "w"; "."]%char.
  assert (Hrev : rev (chars p) = (rev (chars stem) ++ c :: rev (chars pre))%list).
  { unfold p. rewrite chars_app. cbn [chars list_ascii_of_string].
    rewrite rev_app_distr. cbn [rev]. rewrite <- app_assoc. reflexivity. }
  set (n := Z.of_nat (List.length (rev (chars p)))).
  assert (Hn : (0 <= n)%Z) by (unfold n; lia).
  set (st5 := {| Js.startDot := n; Js.startPart := 0; Js.end_ := n + 5;
                 Js.matchedSlash := false; Js.preDotState := 0 |}).
  assert (Hscan : Js.ext_scan (["m"; "b"; "e"; "w"; "."]%char ++ rev (chars p)) Js.ext_init
                  = Js.ext_scan (rev (chars p)) st5).
  { cbn [app].
    rewrite ext_scan_first by reflexivity.
    rewrite !ext_scan_unseen by (reflexivity || lia).
    rewrite ext_scan_first_dot by lia.
    unfold st5. fold n. f_equal. f_equal. cbn [List.length]. lia. }
  rewrite Hscan, Hrev.
  destruct (ext_scan_stem (rev (chars stem)) c (rev (chars pre)) st5)
    as (Hd & He & Hp); auto; try (cbn; lia).
  { apply Forall_rev. exact Hs. }
  rewrite Hd, He. cbn [st5 Js.startDot Js.end_].
  destruct (Z.eqb_spec n (-1)); [lia|].
  destruct (Z.eqb_spec (n + 5) (-1)); [lia|].
  destruct (Z.eqb_spec (Js.preDotState
              (Js.ext_scan (rev (chars stem) ++ c :: rev (chars pre)) st5)) 0);
    [contradiction|].
  destruct (Z.eqb_spec n (n + 5 - 1)); [lia|].
  rewrite andb_false_r. cbn [orb andb].
  unfold Js.slice.
  replace (Z.to_nat n) with (String.length p)
    by (unfold n; rewrite length_rev, length_chars; lia).
  replace (Z.to_nat (n + 5 - n)) with (String.length ".webm") by (cbn; lia).
  apply substring_skip.
Qed.

Lemma append_assoc (a b c : string) : (a ++ b) ++ c = a ++ (b ++ c).
Proof.
  induction a as [|x a IH]; [reflexivity|].
  rewrite !append_cons. f_equal. exact IH.
Qed.

Lemma digit_char_noSlash (d : Z) : (0 <= d < 10)%Z -> JsNum.digit_char d <> "/"%char.
Proof.
  intros H. unfold JsNum.digit_char.
  assert (Hk : (Z.to_nat d < 10)%nat) by lia.
  destruct (Z.to_nat d) as [|[|[|[|[|[|[|[|[|[|k]]]]]]]]]]; try discriminate; lia.
Qed.

Lemma noSlash_digits (fuel : nat) : forall n acc,
  noSlash acc -> noSlash (JsNum.digits_fuel fuel n acc).
Proof.
  induction fuel as [|f IH]; intros n acc Hacc; [exact Hacc|].
  cbn [JsNum.digits_fuel].
  assert (Hacc' : noSlash (String (JsNum.digit_char (n mod 10)) acc)).
  { constructor; [|exact Hacc]. apply digit_char_noSlash.
    apply Z.mod_pos_bound. lia. }
  destruct (n / 10 =? 0)%Z; [exact Hacc' | apply IH; exact Hacc'].
Qed.

Lemma noSlash_decimal (n : Z) : noSlash (JsNum.decimal n).
Proof. apply noSlash_digits. constructor. Qed.

Lemma base36_char_noSlash (d : nat) : FileUtils.base36_char d <> "/"%char.
Proof.
  unfold FileUtils.base36_char.
  assert (H : (d mod 36 < 36)%nat) by (apply Nat.mod_upper_bound; lia).
  destruct (d mod 36)%nat as [|k]; [discriminate|].
  do 35 (destruct k as [|k]; [discriminate|]). lia.
Qed.

Lemma noSlash_random (digits : list nat) :
  noSlash (FileUtils.substring7 (FileUtils.random_text digits)).
Proof.
  apply noSlash_substring. unfold FileUtils.random_text.
  destruct digits as [|d ds].
  - repeat constructor; discriminate.
  - apply (noSlash_app "0."); [repeat constructor; discriminate|].
    unfold noSlash, chars. rewrite list_ascii_of_string_of_list_ascii.
    apply List.Forall_forall. intros c Hc. apply in_map_iff in Hc.
    destruct Hc as (x & <- & _). apply base36_char_noSlash.
Qed.

Lemma noSlash_uniqueId (tmpdir : string) (now : Z) (digits : list nat) :
  noSlash (FileUtils.uniqueId (FileUtils.createTempPaths tmpdir now digits)).
Proof.
  cbn [FileUtils.uniqueId FileUtils.createTempPaths].
  apply noSlash_app; [apply noSlash_decimal|].
  apply (noSlash_app "-"); [repeat constructor; discriminate|].
  apply noSlash_random.
Qed.

(** The downloaded file is stored under a name that ends in [.webm]. *)
Lemma inputPath_extname (tmpdir : string) (now : Z) (digits : list nat) :
  Js.extname (FileUtils.inputPath (FileUtils.createTempPaths tmpdir now digits))
  = ".webm".
Proof.
  pose proof (noSlash_uniqueId tmpdir now digits) as Hid.
  cbn [FileUtils.inputPath FileUtils.createTempPaths] in *.
  set (uid := JsNum.decimal now ++ "-" ++ _) in *.
  assert (Hstem : noSlash ("nput-" ++ uid)).
  { apply (noSlash_app "nput-"); [repeat constructor; discriminate | exact Hid]. }
  unfold Js.path_join. destruct tmpdir as [|c dir].
  - apply (extname_webm "" ("nput-" ++ uid) "i"); auto.
  - change ("input-" ++ uid ++ ".webm") with (String "i" ("nput-" ++ uid) ++ ".webm").
    rewrite <- (append_assoc (String c dir) "/").
    apply (extname_webm (String c dir ++ "/") ("nput-" ++ uid) "i"); auto.
Qed.

Lemma isAudioFile_classify (filePath : string) (contentType : option string) :
  Spec.kindOf (AudioUtils.isAudioFile filePath contentType)
  = Spec.classify filePath contentType.
Proof.
  unfold AudioUtils.isAudioFile, Spec.classify, Spec.extension.
  rewrite audioOnly_ext, ambiguous_ext.
  destruct contentType as [[|c ct]|].
  - cbn. destruct (Spec.inSet _ _); [reflexivity|].
    destruct (Spec.inSet _ _); reflexivity.
  - cbn [Js.truthy option_map default andb Js.toLowerCase id].
    change (AudioUtils.some_included ?l (String (Js.lower_ascii c) (Js.toLowerCase ct)))
      with (Spec.matches l (Some (String c ct))).
    destruct (Spec.matches AudioUtils.videoMimeTypes _); [reflexivity|].
    destruct (Spec.matches AudioUtils.audioMimeTypes _); [reflexivity|].
    destruct (Spec.inSet _ _); [reflexivity|].
    destruct (Spec.inSet _ _); reflexivity.
  - cbn. destruct (Spec.inSet _ _); [reflexivity|].
    destruct (Spec.inSet _ _); reflexivity.
Qed.

(** On a path with the extension [.webm] the content type decides alone. *)
Lemma isAudioFile_webm (filePath : string) (contentType : option string) :
  Js.extname filePath = ".webm" ->
  AudioUtils.isAudioFile filePath contentType = Spec.audioByContentType contentType.
Proof.
  intros Hext. pose proof (isAudioFile_classify filePath contentType) as H.
  unfold Spec.classify, Spec.extension in H. rewrite Hext in H.
  unfold Spec.audioByContentType.
  destruct (AudioUtils.isAudioFile filePath contentType),
    (Spec.matches AudioUtils.videoMimeTypes contentType),
    (Spec.matches AudioUtils.audioMimeTypes contentType);
    vm_compute in H |- *; congruence.
Qed.

(** ** What a run leaves in the trace *)

Local Open Scope list_scope.

Ltac eff_unfold :=
  cbv [Eff.bind Eff.Date_now Eff.log Eff.emit Eff.writeFile Eff.statSync
       Eff.existsSync Eff.ret Eff.throw Eff.try_catch OpenaiUtils.getOpenAIClient
       OpenaiUtils.defined OpenaiUtils.parse Route.respond];
  cbn [files clock_reads trace].

Ltac quietly_solve :=
  unfold quietly; cbn [trace];
  first [ exists []; split; [rewrite app_nil_r; reflexivity | constructor]
        | eexists; split;
          [ rewrite <- ?app_assoc; reflexivity
          | unfold quiet; cbn [app]; repeat constructor ] ].

Lemma quietly_refl (w : World) : quietly w w.
Proof. quietly_solve. Qed.

Lemma quietly_trans (w1 w2 w3 : World) : quietly w1 w2 -> quietly w2 w3 -> quietly w1 w3.
Proof.
  intros (e1 & H1 & Q1) (e2 & H2 & Q2). exists (e1 ++ e2). split.
  - rewrite H2, H1, app_assoc. reflexivity.
  - apply Forall_app_2; assumption.
Qed.

Lemma downloadFile_run clock outcome url p w r w' :
  FileUtils.downloadFile clock outcome url p w = (r, w') ->
  quietly w w' /\
  match r with
  | inr dl =>
      exists bytes header,
        outcome = FileUtils.DownloadOk bytes header
        /\ files w' = <[p := bytes]> (files w)
        /\ FileUtils.contentType dl = (if Js.truthy header then header else None)
  | inl _ => True
  end.
Proof.
  unfold FileUtils.downloadFile. destruct outcome; eff_unfold.
  - intros H; injection H as <- <-. split; [quietly_solve | exact I].
  - intros H; injection H as <- <-. split; [quietly_solve | exact I].
  - rewrite lookup_insert_eq. intros H; injection H as <- <-.
    split; [quietly_solve | eauto 6].
Qed.

Lemma validateFileSize_run p w r w' :
  AudioUtils.validateFileSize p w = (r, w') ->
  quietly w w' /\ files w' = files w /\
  match r with
  | inr info =>
      exists n, files w !! p = Some n
                /\ AudioUtils.sizeMB info = bytesToMB n
                /\ Qltb 25 (bytesToMB n) = false
  | inl e =>
      forall n, files w !! p = Some n ->
                Qltb 25 (bytesToMB n) = true
                /\ message e = AudioUtils.tooLargeMessage (bytesToMB n)
  end.
Proof.
  unfold AudioUtils.validateFileSize. eff_unfold.
  destruct (files w !! p) as [n|] eqn:Hp; cbn [stat_size].
  - destruct (Qltb 25 (bytesToMB n)) eqn:Hq; intros [= <- <-].
    + split; [quietly_solve|]. split; [reflexivity|].
      intros n' Hn'. injection Hn' as <-. auto.
    + split; [quietly_solve|]. split; [reflexivity|]. eauto.
  - intros [= <- <-].
    split; [quietly_solve|]. split; [reflexivity|]. intros n Hn. discriminate.
Qed.

Lemma extractAudioFromVideo_run clock outcome inp out ff w r w' :
  AudioUtils.extractAudioFromVideo clock outcome inp out ff w = (r, w') ->
  quietly w w' /\
  match r with
  | inr res =>
      exists bytes,
        outcome = AudioUtils.ExtractOk bytes
        /\ files w' = <[out := bytes]> (files w)
        /\ AudioUtils.outputSizeMB res = bytesToMB bytes
  | inl _ => True
  end.
Proof.
  unfold AudioUtils.extractAudioFromVideo. destruct outcome as [err [n|]|bytes]; eff_unfold.
  - intros [= <- <-]. split; [quietly_solve | exact I].
  - intros [= <- <-]. split; [quietly_solve | exact I].
  - rewrite lookup_insert_eq. eff_unfold. cbn [stat_size].
    destruct (<[out:=bytes]> (files w) !! inp); cbn [stat_size files clock_reads trace];
      intros [= <- <-]; (split; [quietly_solve | eauto]).
Qed.

Lemma transcribeAudio_run clock outcome ready p w r w' :
  OpenaiUtils.transcribeAudio clock outcome ready p w = (r, w') ->
  files w' = files w /\
  exists evs, trace w' = trace w ++ evs /\ quiet evs /\
    match r with
    | inr _ => In (EvUpload p (files w !! p)) evs
    | inl _ => True
    end.
Proof.
  unfold OpenaiUtils.transcribeAudio.
  destruct ready, outcome as [err|answer]; eff_unfold;
    intros [= <- <-]; (split; [reflexivity|]);
    eexists; (split; [rewrite <- ?app_assoc; reflexivity|]);
    (split; [unfold quiet; cbn [app]; repeat constructor|]);
    cbn; auto.
Qed.

Lemma analyzeSentiment_run parse clock outcome ready text w r w' :
  OpenaiUtils.analyzeSentiment parse clock outcome ready text w = (r, w') ->
  (exists res, r = inr res) /\ files w' = files w /\ quietly w w'.
Proof.
  unfold OpenaiUtils.analyzeSentiment.
  destruct ready; [destruct outcome as [err|[content|] [usage|]]|]; eff_unfold;
    try destruct (parse content);
    intros [= <- <-];
    (split; [eauto|]); (split; [reflexivity|]); quietly_solve.
Qed.

Lemma generateSummary_run clock outcome ready text prompt w r w' :
  OpenaiUtils.generateSummary clock outcome ready text prompt w = (r, w') ->
  (exists res, r = inr res) /\ files w' = files w /\ quietly w w'.
Proof.
  unfold OpenaiUtils.generateSummary.
  destruct ready; [destruct outcome as [err|[content|] [usage|]]|]; eff_unfold;
    intros [= <- <-];
    (split; [eauto|]); (split; [reflexivity|]); quietly_solve.
Qed.

Lemma attempted_app_l p e1 e2 : attempted p e1 -> attempted p (e1 ++ e2).
Proof. intros (f & H). exists f. apply in_or_app. auto. Qed.

Lemma attempted_app_r p e1 e2 : attempted p e2 -> attempted p (e1 ++ e2).
Proof. intros (f & H). exists f. apply in_or_app. auto. Qed.

(** [cleanupFiles] never raises, leaves the clock alone, answers nothing
    to the client and looks for every path it is given. *)
Lemma cleanupFiles_run unlinkError l : forall w r w',
  FileUtils.cleanupFiles unlinkError l w = (r, w') ->
  (exists cleaned, r = inr cleaned) /\ clock_reads w' = clock_reads w /\
  exists evs, trace w' = trace w ++ evs /\ quiet evs /\
    forall c p, In (Some (String c p)) l -> attempted (String c p) evs.
Proof.
  induction l as [|filePath rest IH]; intros w r w'.
  - cbn. intros [= <- <-]. split; [eauto|]. split; [reflexivity|].
    exists []. rewrite app_nil_r. repeat split; [constructor|]. intros c p [].
  - cbn [FileUtils.cleanupFiles].
    assert (Hskip : forall w r w',
      FileUtils.cleanupFiles unlinkError rest w = (r, w') ->
      (forall c p, filePath <> Some (String c p)) ->
      (exists cleaned, r = inr cleaned) /\ clock_reads w' = clock_reads w /\
      exists evs, trace w' = trace w ++ evs /\ quiet evs /\
        forall c p, In (Some (String c p)) (filePath :: rest) -> attempted (String c p) evs).
    { intros w0 r0 w0' H Hne. destruct (IH _ _ _ H) as (Hr & Hc & evs & Ht & Hq & Ha).
      split; [exact Hr|]. split; [exact Hc|]. exists evs. repeat split; auto.
      intros c p [Heq|Hin]; [destruct (Hne c p Heq) | auto]. }
    destruct filePath as [[|c p]|]; try (intros H; apply (Hskip _ _ _ H); congruence).
    clear Hskip. set (path := String c p).
    destruct (files w !! path) as [n|] eqn:Hf.
    + cbv [Eff.bind Eff.existsSync Eff.try_catch Eff.statSync Eff.unlinkSync Eff.ret];
        cbn [files clock_reads trace]; rewrite !Hf.
      rewrite bool_decide_eq_true_2 by eauto.
      repeat (progress (cbn [files clock_reads trace stat_size]; rewrite ?Hf)).
      destruct (unlinkError path);
        cbn [files clock_reads trace message];
        match goal with
        | |- context [FileUtils.cleanupFiles unlinkError rest ?W] =>
            destruct (FileUtils.cleanupFiles unlinkError rest W) as [r0 w0] eqn:Hrest;
            destruct (IH _ _ _ Hrest) as ((cl & ->) & Hc & evs & Ht & Hq & Ha)
        end;
        cbn [files clock_reads trace] in *;
        intros [= <- <-];
        (split; [eauto|]); (split; [exact Hc|]);
        eexists; (split; [rewrite Ht, <- !app_assoc; reflexivity|]);
        (split; [unfold quiet; cbn [app]; repeat constructor; exact Hq|]);
        (intros c' p' [Heq|Hin];
         [injection Heq as <- <-; eexists; left; reflexivity
         | cbn [app]; destruct (Ha c' p' Hin) as (f & Hf'); exists f; right; right; exact Hf']).
    + cbv [Eff.bind Eff.existsSync]; cbn [files clock_reads trace]; rewrite !Hf.
      rewrite bool_decide_eq_false_2 by (intros [? ?]; discriminate).
      intros H. destruct (IH _ _ _ H) as (Hr & Hc & evs & Ht & Hq & Ha).
      cbn [files clock_reads trace] in *.
      split; [exact Hr|]. split; [exact Hc|].
      eexists; (split; [rewrite Ht, <- !app_assoc; reflexivity|]).
      split; [unfold quiet; cbn [app]; repeat constructor; exact Hq|].
      intros c' p' [Heq|Hin];
        [injection Heq as <- <-; eexists; left; reflexivity
        | cbn [app]; destruct (Ha c' p' Hin) as (f & Hf'); exists f; right; exact Hf'].
Qed.

(** *** Stepping through a sequence *)

Lemma bind_inv {A B} (m : Eff.M A) (k : A -> Eff.M B) w r w' :
  Eff.bind m k w = (r, w') ->
  (exists e, m w = (inl e, w') /\ r = inl e)
  \/ (exists x w1, m w = (inr x, w1) /\ k x w1 = (r, w')).
Proof.
  unfold Eff.bind. destruct (m w) as [[e|x] w1]; intros H.
  - injection H as <- <-. left. eauto.
  - right. eauto.
Qed.

Lemma try_catch_inv {A} (body : Eff.M A) (handler : JsError -> Eff.M A) w r w' :
  Eff.try_catch body handler w = (r, w') ->
  (exists e w1, body w = (inl e, w1) /\ handler e w1 = (r, w'))
  \/ (exists x, body w = (inr x, w') /\ r = inr x).
Proof.
  unfold Eff.try_catch. destruct (body w) as [[e|x] w1]; intros H.
  - left. eauto.
  - injection H as <- <-. right. eauto.
Qed.

Lemma log_run level msg w r w' :
  Eff.log level msg w = (r, w') ->
  r = inr tt /\ files w' = files w /\ clock_reads w' = clock_reads w /\ quietly w w'.
Proof. intros [= <- <-]. repeat split. quietly_solve. Qed.

Lemma emit_run e w r w' :
  isResponse e = false -> Eff.emit e w = (r, w') ->
  r = inr tt /\ files w' = files w /\ clock_reads w' = clock_reads w /\ quietly w w'.
Proof.
  intros He [= <- <-]. repeat split. exists [e]. split; [reflexivity|].
  constructor; [exact He | constructor].
Qed.

Lemma Date_now_run clock w r w' :
  Eff.Date_now clock w = (r, w') ->
  r = inr (clock (clock_reads w)) /\ files w' = files w
  /\ clock_reads w' = S (clock_reads w) /\ quietly w w'.
Proof. intros [= <- <-]. repeat split. quietly_solve. Qed.

Lemma respond_run status body w r w' :
  Route.respond status body w = (r, w') ->
  r = inr tt /\ trace w' = trace w ++ [EvRespond status body]
  /\ clock_reads w' = clock_reads w.
Proof. intros [= <- <-]. repeat split. Qed.

(** The [catch] block answers 500 once, after looking for each of the
    paths it holds, and never raises. *)
Lemma catch_block_run env originalUrl startTime tin tout err w r w' :
  Route.catch_block env originalUrl startTime tin tout err w = (r, w') ->
  r = inr tt /\
  exists pre msg,
    trace w' = trace w ++ pre
                 ++ [EvRespond 500 (BodyError "Failed to transcribe audio" (Some msg)
                                      (Some originalUrl))]
    /\ quiet pre
    /\ forall c p, tin = Some (String c p) \/ tout = Some (String c p) ->
                   attempted (String c p) pre.
Proof.
  unfold Route.catch_block. intros H.
  apply bind_inv in H as [(e & Hm & _) | (now & w1 & Hm & H)];
    [apply Date_now_run in Hm as (Hr & _); discriminate Hr|].
  apply Date_now_run in Hm as (_ & _ & _ & Q1).
  apply bind_inv in H as [(e & Hm & _) | (u & w2 & Hm & H)];
    [apply log_run in Hm as (Hr & _); discriminate Hr|].
  apply log_run in Hm as (_ & _ & _ & Q2).
  pose proof (quietly_trans _ _ _ Q1 Q2) as Q. clear Q1 Q2.
  apply bind_inv in H as [(e & Hm & _) | (u' & w3 & Hm & H)].
  - (* the inner [try] never lets an exception out *)
    apply try_catch_inv in Hm as [(e' & w4 & _ & Hh) | (x & _ & Hr)];
      [apply log_run in Hh as (Hr & _) |]; discriminate Hr.
  - apply respond_run in H as (-> & Ht & _). split; [reflexivity|].
    assert (Hclean : exists evs, trace w3 = trace w2 ++ evs /\ quiet evs /\
              forall c p, tin = Some (String c p) \/ tout = Some (String c p) ->
                          attempted (String c p) evs).
    { apply try_catch_inv in Hm as [(e' & w4 & Hb & _) | (x & Hb & _)].
      - apply bind_inv in Hb as [(e2 & Hc & _) | (cl & w5 & Hc & Hb)].
        + apply cleanupFiles_run in Hc as ((? & Hr) & _); discriminate Hr.
        + destruct (0 <? List.length cl)%nat.
          * apply emit_run in Hb as (Hr & _); [discriminate Hr | reflexivity].
          * discriminate Hb.
      - apply bind_inv in Hb as [(e2 & Hc & _) | (cl & w5 & Hc & Hb)].
        + apply cleanupFiles_run in Hc as ((? & Hr) & _); discriminate Hr.
        + apply cleanupFiles_run in Hc as (_ & _ & evs & Ht5 & Hq5 & Ha).
          assert (Hin : forall c p, tin = Some (String c p) \/ tout = Some (String c p) ->
                    In (Some (String c p)) (List.filter Js.truthy [tin; tout])).
          { intros c p Hp. apply filter_In. split; [|reflexivity].
            destruct Hp as [-> | ->]; cbn; auto. }
          destruct (0 <? List.length cl)%nat.
          * apply emit_run in Hb as (_ & _ & _ & (e6 & Ht6 & Hq6)); [|reflexivity].
            exists (evs ++ e6). split; [rewrite Ht6, Ht5, app_assoc; reflexivity|].
            split; [apply Forall_app_2; assumption|].
            intros c p Hp. apply attempted_app_l. auto.
          * injection Hb as _ <-. exists evs. repeat split; auto. }
    destruct Q as (e1 & Ht1 & Hq1). destruct Hclean as (e2 & Ht2 & Hq2 & Ha).
    exists (e1 ++ e2). eexists. split.
    + rewrite Ht, Ht2, Ht1, <- !app_assoc. reflexivity.
    + split; [apply Forall_app_2; assumption|].
      intros c p Hp. apply attempted_app_r. auto.
Qed.

Ltac step H x w1 Hm :=
  apply bind_inv in H as [(?e & Hm & ->) | (x & w1 & Hm & H)]; cbv beta zeta in *.

Ltac step' H x w1 Hm :=
  apply bind_inv in H as [(?e & Hm & ?Heq) | (x & w1 & Hm & H)]; cbv beta zeta in *.

(** The stretch of the handler from the download to the success response:
    it either raises without having answered, or answers 200 once, after
    the cleanup, with what the run produced. *)
Lemma pipeline_run JSON_parse env u prompt originalUrl startTime tin tout w r w' :
  Route.pipeline JSON_parse env u prompt originalUrl startTime tin tout w = (r, w') ->
  match r with
  | inl _ => quietly w w'
  | inr _ =>
      exists pre tr sv sm md bytes header n,
        trace w' = trace w ++ pre ++ [EvRespond 200 (BodyOk originalUrl tr sv sm md)]
        /\ quiet pre
        /\ Route.download env = FileUtils.DownloadOk bytes header
        /\ fileWasAudio md
           = AudioUtils.isAudioFile tin (if Js.truthy header then header else None)
        /\ (forall c p, tin = String c p -> attempted tin pre)
        /\ (fileWasAudio md = false -> forall c p, tout = String c p -> attempted tout pre)
        /\ In (EvUpload (if fileWasAudio md then tin else tout) (Some n)) pre
        /\ estimatedDurationMinutes (ur_whisper (md_tokenUsage md))
           = JsNum.parseFloat (AudioUtils.estimateAudioDuration (bytesToMB n))
        /\ (fileWasAudio md = true -> n = bytes /\ Qltb 25 (bytesToMB n) = false)
        /\ (fileWasAudio md = false -> Route.extraction env = AudioUtils.ExtractOk n)
  end.
Proof.
  unfold Route.pipeline. intros H.
  (* log *)
  step H x1 w1 Hm; [apply log_run in Hm as (Hr & _); discriminate Hr|].
  apply log_run in Hm as (_ & F1 & _ & Q1).
  (* download *)
  step H dl w2 Hm; [apply downloadFile_run in Hm as (Q2 & _); eapply quietly_trans; eassumption|].
  apply downloadFile_run in Hm as (Q2 & bytes & header & Hdl & F2 & Hct).
  rewrite F1 in F2. pose proof (quietly_trans _ _ _ Q1 Q2) as Q. clear Q1 Q2 F1.
  rewrite Hct in H.
  set (fileIsAudio := AudioUtils.isAudioFile tin _) in *.
  (* classification, validation or extraction *)
  assert (Hchoice : forall rc w3,
    (if fileIsAudio
     then (Eff.log "INFO" "File is already an audio file, skipping extraction" ;;;
           validationResult <- AudioUtils.validateFileSize tin ;;
           Eff.ret {| Route.extractionTime := 0;
                      Route.outputSizeMB := AudioUtils.sizeMB validationResult;
                      Route.audioFilePath := tin |})
     else
       if negb (Js.truthy (Route.ffmpegPath env)) then
         Eff.log "ERROR" "FFmpeg not configured" ;;;
         Eff.throw (Error "FFmpeg is not installed or not found. Please install ffmpeg (brew install ffmpeg on macOS, apt-get install ffmpeg on Linux) and ensure it's in your PATH.")
       else
         Eff.log "INFO" "File appears to be a video, extracting audio" ;;;
         extractionResult <-
           AudioUtils.extractAudioFromVideo (Route.clock env) (Route.extraction env)
             tin tout (default "" (Route.ffmpegPath env)) ;;
         Eff.ret {| Route.extractionTime := AudioUtils.extractionTime extractionResult;
                    Route.outputSizeMB := AudioUtils.outputSizeMB extractionResult;
                    Route.audioFilePath := tout |}) w2 = (rc, w3) ->
    quietly w2 w3 /\
    match rc with
    | inl _ => True
    | inr choice =>
        exists n,
          files w3 !! Route.audioFilePath choice = Some n
          /\ Route.outputSizeMB choice = bytesToMB n
          /\ Route.audioFilePath choice = (if fileIsAudio then tin else tout)
          /\ (fileIsAudio = true -> n = bytes /\ Qltb 25 (bytesToMB n) = false)
          /\ (fileIsAudio = false -> Route.extraction env = AudioUtils.ExtractOk n)
    end).
  { intros rc w3 Hc. destruct fileIsAudio.
    - step Hc y1 v1 Hm; [apply log_run in Hm as (Hr & _); discriminate Hr|].
      apply log_run in Hm as (_ & G1 & _ & P1).
      step Hc vr v2 Hm.
      + apply validateFileSize_run in Hm as (P2 & _).
        split; [eapply quietly_trans; eassumption | exact I].
      + apply validateFileSize_run in Hm as (P2 & G2 & n & Hn & Hsz & Hle).
        injection Hc as <- <-. split; [eapply quietly_trans; eassumption|].
        rewrite G1, F2, lookup_insert_eq in Hn. injection Hn as <-.
        exists bytes. cbn [Route.audioFilePath Route.outputSizeMB].
        rewrite G2, G1, F2, lookup_insert_eq. repeat split; auto; discriminate.
    - destruct (negb (Js.truthy (Route.ffmpegPath env))).
      + step Hc y1 v1 Hm; [apply log_run in Hm as (Hr & _); discriminate Hr|].
        apply log_run in Hm as (_ & _ & _ & P1). injection Hc as <- <-.
        split; [exact P1 | exact I].
      + step Hc y1 v1 Hm; [apply log_run in Hm as (Hr & _); discriminate Hr|].
        apply log_run in Hm as (_ & G1 & _ & P1).
        step Hc er v2 Hm.
        * apply extractAudioFromVideo_run in Hm as (P2 & _).
          split; [eapply quietly_trans; eassumption | exact I].
        * apply extractAudioFromVideo_run in Hm as (P2 & n & Hex & G2 & Hsz).
          injection Hc as <- <-. split; [eapply quietly_trans; eassumption|].
          exists n. cbn [Route.audioFilePath Route.outputSizeMB].
          rewrite G2, lookup_insert_eq. repeat split; auto; discriminate. }
  step H ch w3 Hm.
  { apply Hchoice in Hm as (Q3 & _). eapply quietly_trans; eassumption. }
  apply Hchoice in Hm as (Q3 & n & Hfile & Hsize & Hpath & Haudio & Hvideo).
  clear Hchoice. pose proof (quietly_trans _ _ _ Q Q3) as Q'. clear Q Q3.
  (* transcription *)
  step H tr w4 Hm.
  { apply transcribeAudio_run in Hm as (_ & evs & Ht & Hq & _).
    eapply quietly_trans; [exact Q'|]. exists evs. auto. }
  apply transcribeAudio_run in Hm as (F4 & ev4 & Ht4 & Hq4 & Hup).
  rewrite Hfile, Hpath in Hup.
  (* sentiment and summary *)
  step H sr w5 Hm; [apply analyzeSentiment_run in Hm as ((? & Hr) & _); discriminate Hr|].
  apply analyzeSentiment_run in Hm as (_ & _ & (ev5 & Ht5 & Hq5)).
  step H sm w6 Hm; [apply generateSummary_run in Hm as ((? & Hr) & _); discriminate Hr|].
  apply generateSummary_run in Hm as (_ & _ & (ev6 & Ht6 & Hq6)).
  (* cleanup *)
  step H t7 w7 Hm; [apply Date_now_run in Hm as (Hr & _); discriminate Hr|].
  apply Date_now_run in Hm as (_ & _ & _ & (ev7 & Ht7 & Hq7)).
  step H cl w8 Hm; [apply cleanupFiles_run in Hm as ((? & Hr) & _); discriminate Hr|].
  apply cleanupFiles_run in Hm as (_ & _ & ev8 & Ht8 & Hq8 & Hatt).
  step H t9 w9 Hm; [apply Date_now_run in Hm as (Hr & _); discriminate Hr|].
  apply Date_now_run in Hm as (_ & _ & _ & (ev9 & Ht9 & Hq9)).
  step H x10 w10 Hm; [apply emit_run in Hm as (Hr & _); [discriminate Hr | reflexivity]|].
  apply emit_run in Hm as (_ & _ & _ & (ev10 & Ht10 & Hq10)); [|reflexivity].
  step H t11 w11 Hm; [apply Date_now_run in Hm as (Hr & _); discriminate Hr|].
  apply Date_now_run in Hm as (_ & _ & _ & (ev11 & Ht11 & Hq11)).
  step H x12 w12 Hm; [apply log_run in Hm as (Hr & _); discriminate Hr|].
  apply log_run in Hm as (_ & _ & _ & (ev12 & Ht12 & Hq12)).
  apply respond_run in H as (-> & Ht13 & _).
  destruct Q' as (ev3 & Ht3 & Hq3).
  exists (ev3 ++ ev4 ++ ev5 ++ ev6 ++ ev7 ++ ev8 ++ ev9 ++ ev10 ++ ev11 ++ ev12).
  do 4 eexists. exists bytes, header, n.
  split.
  { rewrite Ht13, Ht12, Ht11, Ht10, Ht9, Ht8, Ht7, Ht6, Ht5, Ht4, Ht3, <- !app_assoc.
    reflexivity. }
  cbn [fileWasAudio md_tokenUsage ur_whisper estimatedDurationMinutes].
  split; [repeat (apply Forall_app_2; [assumption|]); assumption|].
  split; [exact Hdl|]. split; [reflexivity|].
  assert (Hin8 : forall q, attempted q ev8 ->
            attempted q (ev3 ++ ev4 ++ ev5 ++ ev6 ++ ev7 ++ ev8 ++ ev9 ++ ev10 ++ ev11 ++ ev12)).
  { intros q Hq. do 5 apply attempted_app_r. apply attempted_app_l. exact Hq. }
  split.
  { intros c p ->. apply Hin8, Hatt. destruct fileIsAudio; cbn; auto. }
  split.
  { intros Hf c p ->. apply Hin8, Hatt. rewrite Hf. cbn; auto. }
  split.
  { apply in_or_app. right. apply in_or_app. left. exact Hup. }
  split; [rewrite Hsize; reflexivity|].
  split; assumption.
Qed.

Lemma inputPath_nonempty tmpdir now digits :
  exists c p,
    FileUtils.inputPath (FileUtils.createTempPaths tmpdir now digits) = String c p.
Proof.
  cbn [FileUtils.inputPath FileUtils.createTempPaths]. unfold Js.path_join.
  destruct tmpdir as [|c dir]; [|rewrite append_cons]; eauto.
Qed.

Lemma outputPath_nonempty tmpdir now digits :
  exists c p,
    FileUtils.outputPath (FileUtils.createTempPaths tmpdir now digits) = String c p.
Proof.
  cbn [FileUtils.outputPath FileUtils.createTempPaths]. unfold Js.path_join.
  destruct tmpdir as [|c dir]; [|rewrite append_cons]; eauto.
Qed.

Lemma audioByContentType_header (header : option string) :
  Spec.audioByContentType (if Js.truthy header then header else None)
  = Spec.audioByContentType header.
Proof. destruct header as [[|c s]|]; reflexivity. Qed.

(** What the handler does with a request, whatever the outside answers. *)
Lemma transcribe_run JSON_parse env req w r w' :
  Route.transcribe JSON_parse env req w = (r, w') ->
  r = inr tt /\
  exists pre status body,
    trace w' = trace w ++ pre ++ [EvRespond status body]
    /\ quiet pre
    /\ match requestPaths env req w with
       | None =>
           match body with
           | BodyError _ _ _ => status = 400%Z \/ status = 500%Z
           | BodyOk _ _ _ _ _ => False
           end
       | Some paths =>
           attempted (FileUtils.inputPath paths) pre /\
           match body with
           | BodyError _ _ _ =>
               status = 500%Z /\ attempted (FileUtils.outputPath paths) pre
           | BodyOk _ _ _ _ md =>
               status = 200%Z /\
               exists bytes header n,
                 Route.download env = FileUtils.DownloadOk bytes header
                 /\ fileWasAudio md = Spec.audioByContentType header
                 /\ (fileWasAudio md = false ->
                     attempted (FileUtils.outputPath paths) pre
                     /\ Route.extraction env = AudioUtils.ExtractOk n)
                 /\ In (EvUpload (if fileWasAudio md then FileUtils.inputPath paths
                                  else FileUtils.outputPath paths) (Some n)) pre
                 /\ estimatedDurationMinutes (ur_whisper (md_tokenUsage md))
                    = JsNum.parseFloat (AudioUtils.estimateAudioDuration (bytesToMB n))
                 /\ (fileWasAudio md = true ->
                     n = bytes /\ Qltb 25 (bytesToMB n) = false)
           end
       end.
Proof.
  unfold Route.transcribe, requestPaths. intros H.
  step H t0 w0 Hm; [apply Date_now_run in Hm as (Hr & _); discriminate Hr|].
  apply Date_now_run in Hm as (_ & _ & C0 & Q0).
  apply try_catch_inv in H as [(e & w1 & Hb & Hh) | (x & Hb & ->)].
  - (* an exception reaches the outer handler: only without a body *)
    destruct (Route.body req) as [b|].
    + exfalso.
      step' Hb x1 v1 Hm; [apply log_run in Hm as (Hr & _); discriminate Hr|].
      clear Hm.
      destruct (Route.url b) as [|[|c s]|];
        try (step' Hb x2 v2 Hm; [apply log_run in Hm as (Hr & _); discriminate Hr|];
             apply respond_run in Hb as (Hr & _); discriminate Hr).
      destruct (Route.apiKey env); cbn [negb] in Hb.
      * step' Hb x2 v2 Hm; [apply log_run in Hm as (Hr & _); discriminate Hr|].
        step' Hb now v3 Hm'; [apply Date_now_run in Hm' as (Hr & _); discriminate Hr|].
        clear Hm Hm'.
        apply try_catch_inv in Hb as [(e' & v4 & _ & Hc) | (y & _ & Hr)];
          [apply catch_block_run in Hc as (Hr & _) |]; discriminate Hr.
      * step' Hb x2 v2 Hm; [apply log_run in Hm as (Hr & _); discriminate Hr|].
        apply respond_run in Hb as (Hr & _); discriminate Hr.
    + injection Hb as <- <-.
      apply catch_block_run in Hh as (-> & pre & msg & Ht & Hq & _).
      split; [reflexivity|]. destruct Q0 as (e0 & Ht0 & Hq0).
      exists (e0 ++ pre), 500%Z. eexists. split.
      * rewrite Ht, Ht0, <- !app_assoc. reflexivity.
      * split; [apply Forall_app_2; assumption|]. cbn. auto.
  - split; [destruct x; reflexivity|].
    destruct (Route.body req) as [b|]; [|discriminate Hb].
    step' Hb x1 v1 Hm; [apply log_run in Hm as (Hr & _); discriminate Hr|].
    apply log_run in Hm as (_ & _ & C1 & Q1).
    pose proof (quietly_trans _ _ _ Q0 Q1) as Q. clear Q0 Q1.
    assert (Hearly : forall v w'' msg,
      (Eff.log "WARN" "Invalid request: URL missing or invalid" ;;;
       Route.respond 400 (BodyError msg None None)) v = (inr x, w'') ->
      quietly w v ->
      exists pre status body,
        trace w'' = trace w ++ pre ++ [EvRespond status body] /\ quiet pre /\
        match body with
        | BodyError _ _ _ => status = 400%Z \/ status = 500%Z
        | BodyOk _ _ _ _ _ => False
        end).
    { intros v w'' msg Hv (e0 & Ht0 & Hq0).
      step' Hv x2 v2 Hm; [apply log_run in Hm as (Hr & _); discriminate Hr|].
      apply log_run in Hm as (_ & _ & _ & (e2 & Ht2 & Hq2)).
      apply respond_run in Hv as (_ & Ht & _).
      exists (e0 ++ e2), 400%Z. eexists. split.
      - rewrite Ht, Ht2, Ht0, <- !app_assoc. reflexivity.
      - split; [apply Forall_app_2; assumption|]. cbn. auto. }
    destruct (Route.url b) as [|[|c s]|]; try (eapply Hearly; eassumption).
    clear Hearly. destruct Q as (e0 & Ht0 & Hq0).
    destruct (Route.apiKey env); cbn [negb] in Hb.
    + step' Hb x2 v2 Hm; [apply log_run in Hm as (Hr & _); discriminate Hr|].
      apply log_run in Hm as (_ & _ & C2 & (e2 & Ht2 & Hq2)).
      step' Hb now v3 Hm; [apply Date_now_run in Hm as (Hr & _); discriminate Hr|].
      apply Date_now_run in Hm as (Hnow & _ & _ & (e3 & Ht3 & Hq3)).
      injection Hnow as ->. rewrite C2, C1, C0 in Hb.
      set (paths := FileUtils.createTempPaths _ _ _) in *.
      destruct (inputPath_nonempty (Route.tmpdir env)
                  (Route.clock env (S (clock_reads w))) (Route.random_digits env))
        as (ci & pi & Hin).
      destruct (outputPath_nonempty (Route.tmpdir env)
                  (Route.clock env (S (clock_reads w))) (Route.random_digits env))
        as (co & po & Hout).
      fold paths in Hin, Hout.
      apply try_catch_inv in Hb as [(e' & v4 & Hp & Hc) | (y & Hp & _)].
      * apply pipeline_run in Hp as (e4 & Ht4 & Hq4).
        apply catch_block_run in Hc as (_ & pre & msg & Ht & Hq & Ha).
        exists (e0 ++ e2 ++ e3 ++ e4 ++ pre), 500%Z. eexists. split.
        { rewrite Ht, Ht4, Ht3, Ht2, Ht0, <- !app_assoc. reflexivity. }
        split; [repeat (apply Forall_app_2; [assumption|]); assumption|].
        cbv beta iota. split; [|split; [reflexivity|]].
        -- rewrite Hin. do 4 apply attempted_app_r. apply Ha. left. congruence.
        -- rewrite Hout. do 4 apply attempted_app_r. apply Ha. right. congruence.
      * apply pipeline_run in Hp
          as (pre & tr & sv & sm & md & bytes & header & n & Ht & Hq & Hdl & Hfa
              & Hai & Hao & Hup & Hest & Hta & Htv).
        rewrite isAudioFile_webm, audioByContentType_header in Hfa
          by apply inputPath_extname.
        exists (e0 ++ e2 ++ e3 ++ pre), 200%Z. eexists. split.
        { rewrite Ht, Ht3, Ht2, Ht0, <- !app_assoc. reflexivity. }
        split; [repeat (apply Forall_app_2; [assumption|]); assumption|].
        cbv beta iota.
        split; [do 3 apply attempted_app_r; eapply Hai; exact Hin|].
        split; [reflexivity|]. exists bytes, header, n.
        split; [exact Hdl|]. split; [exact Hfa|].
        split.
        { intros Hf. split; [|auto].
          do 3 apply attempted_app_r. eapply Hao; [exact Hf | exact Hout]. }
        split.
        { do 3 (apply in_or_app; right). exact Hup. }
        split; [exact Hest | exact Hta].
    + step' Hb x2 v2 Hm; [apply log_run in Hm as (Hr & _); discriminate Hr|].
      apply log_run in Hm as (_ & _ & _ & (e2 & Ht2 & Hq2)).
      apply respond_run in Hb as (_ & Ht & _).
      exists (e0 ++ e2), 500%Z. eexists. split.
      * rewrite Ht, Ht2, Ht0, <- !app_assoc. reflexivity.
      * split; [apply Forall_app_2; assumption|]. cbn. auto.
Qed.

(** ** Scenarios *)

Lemma tooLarge_bytes (n : N) :
  Qltb 25 (bytesToMB n) = (26214400 <? n)%N.
Proof.
  change (bytesToMB n) with (inject_Z (Z.of_N n) * (1 # 1048576))%Q.
  unfold Qltb, Qle_bool. cbn [Qnum Qden Qmult inject_Z Pos.mul].
  destruct (N.ltb_spec 26214400 n) as [H|H];
    [apply negb_true_iff, Z.leb_gt | apply negb_false_iff, Z.leb_le]; lia.
Qed.

(** C1.  The size check guards the AudioOnly branch only.  Every
    successful run that took the file as audio uploaded at most 25 MB;
    but a video whose extracted audio has 30 MB is uploaded and answered
    with 200, while the same 30 MB served as audio are refused with the
    too-large error before any upload. *)
Theorem size_check_only_on_audio_branch :
  (forall JSON_parse env req w pre status url tr sv sm md,
      trace (snd (Route.transcribe JSON_parse env req w))
        = trace w ++ pre ++ [EvRespond status (BodyOk url tr sv sm md)] ->
      fileWasAudio md = true ->
      exists p n, In (EvUpload p (Some n)) pre /\ (n <= 26214400)%N)
  /\ (let video := Scenario.env (Some "video/mp4") (Scenario.MiB 40) (Scenario.MiB 30) in
      let t := trace (Scenario.run video "https://example.com/talk.mp4") in
      uploads t = [("/tmp/output-1700000000001-6789ab.mp3", Some 31457280%N)]
      /\ AudioUtils.validateFileSize "/tmp/output-1700000000001-6789ab.mp3"
           {| files := {["/tmp/output-1700000000001-6789ab.mp3" := 31457280%N]};
              clock_reads := 0; trace := [] |}
         = (inl (Error "Audio file is too large: 30.00MB. Maximum size is 25MB."),
            {| files := {["/tmp/output-1700000000001-6789ab.mp3" := 31457280%N]};
               clock_reads := 0; trace := [EvLog "ERROR" "Audio file too large"] |})
      /\ exists body, responses t = [EvRespond 200 body])
  /\ (let audio := Scenario.env (Some "audio/mpeg") (Scenario.MiB 30) 0 in
      let t := trace (Scenario.run audio "https://example.com/talk.mp3") in
      uploads t = []
      /\ responses t
         = [EvRespond 500
              (BodyError "Failed to transcribe audio"
                 (Some "Audio file is too large: 30.00MB. Maximum size is 25MB.")
                 (Some (RString "https://example.com/talk.mp3")))]).
Proof.
  split; [|split].
  - intros JSON_parse env req w pre status url tr sv sm md Ht Hf.
    destruct (Route.transcribe JSON_parse env req w) as [r w'] eqn:Hrun.
    apply transcribe_run in Hrun as (_ & pre' & status' & body' & Ht' & _ & Hcase).
    cbn [snd] in Ht. rewrite Ht' in Ht.
    apply app_inv_head in Ht. apply app_inj_tail in Ht as [-> Hev].
    injection Hev as -> ->.
    destruct (requestPaths env req w) as [paths|]; [|destruct Hcase].
    destruct Hcase as (_ & _ & bytes & header & n & _ & _ & _ & Hup & _ & Hsz).
    destruct (Hsz Hf) as (_ & Hle). rewrite tooLarge_bytes in Hle.
    rewrite Hf in Hup. exists (FileUtils.inputPath paths), n. split; [exact Hup|].
    apply N.ltb_ge. exact Hle.
  - vm_compute. repeat split. eexists. reflexivity.
  - vm_compute. repeat split.
Qed.

(** ** The answer does not depend on what the cleanup meets *)



Lemma responses_app (a b : list Event) : responses (a ++ b) = responses a ++ responses b.
Proof. apply List.filter_app. Qed.







(** ** Cleanup and response *)






(** ** The stored name hides the extension of the URL *)

Example mp3_url_takes_extraction_path :
  let t := trace (Scenario.run (Scenario.env None (Scenario.MiB 3) (Scenario.MiB 1))
                    "https://example.com/podcast.mp3") in
  uploads t = [("/tmp/output-1700000000001-6789ab.mp3", Some 1048576%N)]
  /\ lookedFor "/tmp/output-1700000000001-6789ab.mp3" t = true
  /\ AudioUtils.isAudioFile "https://example.com/podcast.mp3" None = true.
Proof. vm_compute. repeat split. Qed.

Example mp3_url_is_reported_as_video :
  option_map fileWasAudio
    (reportedMetadata
       (trace (Scenario.run (Scenario.env (Some "application/octet-stream")
                               (Scenario.MiB 3) (Scenario.MiB 1))
                 "https://example.com/podcast.mp3")))
  = Some false.
Proof. vm_compute. reflexivity. Qed.


(** ** The estimated duration *)

Lemma digit_char_is_digit (d : Z) : (0 <= d < 10)%Z -> JsNum.is_digit (JsNum.digit_char d) = true.
Proof.
  intros H. unfold JsNum.digit_char.
  assert (Hk : (Z.to_nat d < 10)%nat) by lia.
  destruct (Z.to_nat d) as [|[|[|[|[|[|[|[|[|[|k]]]]]]]]]]; try reflexivity; lia.
Qed.







Example empty_audio_download :
  let t := trace (Scenario.run (Scenario.env (Some "audio/mpeg") 0 0)
                    "https://example.com/empty.mp3") in
  uploads t = [("/tmp/input-1700000000001-6789ab.webm", Some 0%N)]
  /\ option_map (fun md => estimatedDurationMinutes (ur_whisper (md_tokenUsage md)))
       (reportedMetadata t)
     = Some JsNum.NaN.
Proof. vm_compute. split; reflexivity. Qed.


(** ** Sentiment and summary degrade, they do not raise *)



(** C2.  For every path and content type, [isAudioFile] decides as the
    five-step precedence does: a video content type gives
    NeedsExtraction whatever the extension, else an audio content type
    gives AudioOnly, else an audio-only extension gives AudioOnly, else
    an ambiguous extension gives NeedsExtraction, else NeedsExtraction. *)
Theorem isAudioFile_precedence (filePath : string) (contentType : option string) :
  Spec.kindOf (AudioUtils.isAudioFile filePath contentType)
  = Spec.classify filePath contentType.
Proof. apply isAudioFile_classify. Qed.

(** ** Aggregation of the people counts *)

Lemma peopleCounts_all (frameAnalyses : list VideoUtils.FrameAnalysis) :
  List.length (VideoUtils.peopleCounts frameAnalyses) = List.length frameAnalyses.
Proof.
  unfold VideoUtils.peopleCounts.
  induction frameAnalyses as [|fa rest IH]; [reflexivity|].
  cbn [map List.filter].
  assert (H : exists q, VideoUtils.countOrZero fa = Some q).
  { unfold VideoUtils.countOrZero.
    destruct (VideoUtils.people (VideoUtils.analysis fa)) as [p|]; [|eauto].
    destruct (VideoUtils.count p) as [c|]; [|eauto].
    destruct (JsValue.Qnonzero c); eauto. }
  destruct H as (q & ->). cbn. f_equal. exact IH.
Qed.

(** C7.  The aggregation does not leave a frame without a count out: the
    missing count is turned into 0 before the filter runs, so the filter
    never removes anything.  Of two frames, one with 4 people and one
    without a count, the code reports min 0, max 4 and average 4/2,
    where the counts that were supplied give 4, 4 and 4. *)
Theorem missing_count_is_counted_as_zero :
  (forall frameAnalyses,
      List.length (VideoUtils.peopleCounts frameAnalyses) = List.length frameAnalyses)
  /\ (let frames := [Frames.withCount 0 (Some 4%Q); Frames.withCount 1 None] in
      VideoUtils.peopleCount (VideoUtils.aggregateFrameAnalyses frames)
      = {| VideoUtils.min := JsNum.Num 0; VideoUtils.max := JsNum.Num 4;
           VideoUtils.average := JsNum.Num (4 # 2) |}
      /\ suppliedCounts frames = [4%Q]
      /\ (VideoUtils.Math_min (suppliedCounts frames),
          VideoUtils.Math_max (suppliedCounts frames),
          VideoUtils.mean (suppliedCounts frames))
         = (JsNum.Num 4, JsNum.Num 4, JsNum.Num 4)).
Proof.
  split; [apply peopleCounts_all|]. vm_compute. repeat split.
Qed.

(** ** The most common location *)

(** C8, as worded, fails on two locations met once each: the second wins. *)
Lemma tie_goes_to_the_later_location :
  ~ firstEncounteredWins ["indoor"; "outdoor"].
Proof.
  intros H. destruct (H "indoor") as (before & after & Hk & Hn).
  - left. reflexivity.
  - reflexivity.
  - change (VideoUtils.mostCommonLocation (VideoUtils.locationFrequency ["indoor"; "outdoor"]))
      with "outdoor" in Hk.
    destruct before as [|b before].
    + discriminate Hk.
    + injection Hk as <- _. apply Hn. left. reflexivity.
Qed.

Lemma tally_bump loc table k :
  VideoUtils.tally (VideoUtils.bump loc table) k
  = if String.eqb loc k then Some (S (default 0%nat (VideoUtils.tally table k)))
    else VideoUtils.tally table k.
Proof.
  induction table as [|[k' n] rest IH]; cbn [VideoUtils.bump VideoUtils.tally].
  - destruct (String.eqb_spec loc k); reflexivity.
  - destruct (String.eqb_spec k' loc) as [->|Hne]; cbn [VideoUtils.tally].
    + destruct (String.eqb_spec loc k); reflexivity.
    + destruct (String.eqb_spec k' k) as [->|Hne'].
      * destruct (String.eqb_spec loc k); [congruence | reflexivity].
      * exact IH.
Qed.

Lemma fst_bump loc table :
  map fst (VideoUtils.bump loc table)
  = VideoUtils.setAdd String.eqb loc (map fst table).
Proof.
  induction table as [|[k n] rest IH]; [reflexivity|].
  cbn [VideoUtils.bump VideoUtils.setAdd map fst].
  destruct (String.eqb k loc); cbn [map fst]; [reflexivity|]. f_equal. exact IH.
Qed.

Lemma fst_locationFrequency keys : forall table,
  map fst (fold_left (fun t loc => VideoUtils.bump loc t) keys table)
  = fold_left (fun seen x => VideoUtils.setAdd String.eqb x seen) keys (map fst table).
Proof.
  induction keys as [|k keys IH]; intros table; [reflexivity|].
  cbn [fold_left]. rewrite IH, fst_bump. reflexivity.
Qed.

Lemma tally_fold keys : forall table k,
  VideoUtils.tally (fold_left (fun t loc => VideoUtils.bump loc t) keys table) k
  = match occurrences keys k with
    | O => VideoUtils.tally table k
    | S n => Some (S n + default 0%nat (VideoUtils.tally table k))%nat
    end.
Proof.
  unfold occurrences.
  induction keys as [|x keys IH]; intros table k; [reflexivity|].
  cbn [fold_left count_occ]. rewrite IH, tally_bump.
  destruct (String.string_dec x k) as [->|Hne].
  - rewrite String.eqb_refl.
    destruct (count_occ String.string_dec keys k), (VideoUtils.tally table k);
      cbn; f_equal; lia.
  - apply String.eqb_neq in Hne. rewrite Hne. reflexivity.
Qed.

Lemma tally_locationFrequency keys k :
  VideoUtils.tally (VideoUtils.locationFrequency keys) k
  = match occurrences keys k with
    | O => None
    | S n => Some (S n)
    end.
Proof.
  unfold VideoUtils.locationFrequency. rewrite tally_fold. cbn.
  destruct (occurrences keys k); [reflexivity|]. f_equal. lia.
Qed.

Lemma tally_In table k : In k (map fst table) <-> VideoUtils.tally table k <> None.
Proof.
  induction table as [|[k' n] rest IH]; cbn [map fst In VideoUtils.tally].
  - split; [intros [] | congruence].
  - destruct (String.eqb_spec k' k) as [->|Hne].
    + split; [discriminate | auto].
    + rewrite <- IH. split; [intros [?|?]; [contradiction | assumption] | auto].
Qed.

Lemma tally_key keys k :
  In k (map fst (VideoUtils.locationFrequency keys)) ->
  VideoUtils.tally (VideoUtils.locationFrequency keys) k = Some (occurrences keys k)
  /\ In k keys.
Proof.
  intros H. apply tally_In in H. rewrite tally_locationFrequency in *.
  unfold occurrences in *.
  destruct (count_occ String.string_dec keys k) eqn:E; [congruence|].
  split; [reflexivity|]. apply (count_occ_In String.string_dec). lia.
Qed.

(** The reduction keeps the running winner only while it is strictly
    ahead, so it ends on the last of the largest. *)
Lemma reduce_last_max (tl : string -> option nat) (c : string -> nat) (ks : list string) :
  (forall k, In k ks -> tl k = Some (c k)) ->
  forall a, tl a = Some (c a) ->
    let r := fold_left (fun a b => if VideoUtils.greater (tl a) (tl b) then a else b) ks a in
    (r = a /\ forall k, In k ks -> (c k < c a)%nat)
    \/ (exists l1 l2, ks = l1 ++ r :: l2 /\ (c a <= c r)%nat
          /\ (forall k, In k l1 -> (c k <= c r)%nat)
          /\ (forall k, In k l2 -> (c k < c r)%nat)).
Proof.
  induction ks as [|k ks IH]; intros Hks a Ha; cbn [fold_left].
  - left. split; [reflexivity | intros k []].
  - assert (Hk : tl k = Some (c k)) by (apply Hks; left; reflexivity).
    assert (Hks' : forall k', In k' ks -> tl k' = Some (c k'))
      by (intros k' Hin; apply Hks; right; exact Hin).
    rewrite Ha, Hk. cbn [VideoUtils.greater].
    destruct (Nat.ltb_spec (c k) (c a)) as [Hlt|Hge].
    + destruct (IH Hks' a Ha) as [(Hr & Hall) | (l1 & l2 & Heq & Hle & H1 & H2)].
      * left. split; [exact Hr|]. intros k' [<-|Hin]; auto.
      * right. exists (k :: l1), l2. repeat split; auto.
        -- cbn. f_equal. exact Heq.
        -- intros k' [<-|Hin]; [lia | auto].
    + destruct (IH Hks' k Hk) as [(Hr & Hall) | (l1 & l2 & Heq & Hle & H1 & H2)].
      * right. exists [], ks. cbn [app]. rewrite Hr. repeat split; auto.
        intros k' [].
      * right. exists (k :: l1), l2. repeat split; auto.
        -- cbn. f_equal. exact Heq.
        -- lia.
        -- intros k' [<-|Hin]; [lia | auto].
Qed.

(** C8, amended.  The table lists the locations in the order they were
    first met, each with the number of its occurrences; the most common
    location is the last entry of the table among those with the highest
    tally: every entry before it has at most its tally, every entry
    after it has strictly less. *)
Theorem most_common_is_last_of_the_largest (keys : list string) :
  keys <> [] ->
  let table := VideoUtils.locationFrequency keys in
  let winner := VideoUtils.mostCommonLocation table in
  map fst table = VideoUtils.arrayFromSet String.eqb keys
  /\ (forall k, In k keys -> VideoUtils.tally table k = Some (occurrences keys k))
  /\ exists before after,
       map fst table = before ++ winner :: after
       /\ (forall k, In k before -> (occurrences keys k <= occurrences keys winner)%nat)
       /\ (forall k, In k after -> (occurrences keys k < occurrences keys winner)%nat).
Proof.
  intros Hne table winner.
  split; [apply (fst_locationFrequency keys [])|]. split.
  { intros k Hin. unfold table. rewrite tally_locationFrequency.
    apply (count_occ_In String.string_dec) in Hin. unfold occurrences.
    destruct (count_occ String.string_dec keys k); [lia | reflexivity]. }
  assert (Hkeys : forall k, In k (map fst table) ->
            VideoUtils.tally table k = Some (occurrences keys k))
    by (intros k Hin; apply tally_key, Hin).
  unfold winner, VideoUtils.mostCommonLocation.
  destruct (VideoUtils.tally table "unknown") as [n|] eqn:Hu.
  - (* "unknown" is itself a location of the table *)
    assert (Hin : In "unknown" (map fst table)) by (apply tally_In; congruence).
    pose proof (Hkeys _ Hin) as Hu'.
    destruct (reduce_last_max (VideoUtils.tally table) (occurrences keys)
                (map fst table) Hkeys "unknown" Hu')
      as [(_ & Hall) | (l1 & l2 & Heq & _ & H1 & H2)].
    + specialize (Hall _ Hin). lia.
    + exists l1, l2. auto.
  - destruct (map fst table) as [|k ks] eqn:Hks.
    + exfalso. destruct keys as [|x keys]; [congruence|].
      assert (Hx : In x (map fst table)).
      { apply tally_In. unfold table. rewrite tally_locationFrequency.
        unfold occurrences. cbn [count_occ].
        destruct (String.string_dec x x); [discriminate | congruence]. }
      rewrite Hks in Hx. destruct Hx.
    + cbn [fold_left]. rewrite Hu. cbn [VideoUtils.greater].
      assert (Hk : VideoUtils.tally table k = Some (occurrences keys k))
        by (apply Hkeys; left; reflexivity).
      assert (Hks' : forall k', In k' ks ->
                VideoUtils.tally table k' = Some (occurrences keys k'))
        by (intros k' Hin; apply Hkeys; right; exact Hin).
      destruct (reduce_last_max (VideoUtils.tally table) (occurrences keys) ks Hks' k Hk)
        as [(Hr & Hall) | (l1 & l2 & Heq & Hle & H1 & H2)].
      * exists [], ks. cbn [app]. rewrite Hr. repeat split; auto. intros k' [].
      * exists (k :: l1), l2. repeat split; auto.
        -- cbn. f_equal. exact Heq.
        -- intros k' [<-|Hin]; [lia | auto].
Qed.

(** Three frames, indoor, outdoor, outdoor, and the tie of two. *)
Lemma most_common_is_last_of_the_largest_witness :
  VideoUtils.mostCommonLocation (VideoUtils.locationFrequency ["indoor"; "outdoor"])
  = "outdoor"
  /\ exists before after,
       map fst (VideoUtils.locationFrequency ["indoor"; "outdoor"])
       = before ++ "outdoor" :: after
       /\ (forall k, In k before ->
             (occurrences ["indoor"; "outdoor"] k
              <= occurrences ["indoor"; "outdoor"] "outdoor")%nat)
       /\ (forall k, In k after ->
             (occurrences ["indoor"; "outdoor"] k
              < occurrences ["indoor"; "outdoor"] "outdoor")%nat).
Proof.
  split; [reflexivity|].
  assert (Hne : ["indoor"; "outdoor"] <> @nil string) by discriminate.
  exact (proj2 (proj2 (most_common_is_last_of_the_largest ["indoor"; "outdoor"] Hne))).
Defined.

(** ** Frame sampling *)









(** ** One failing frame *)







Example three_frames_one_rejected :
  let out := VideoUtils.analyzeVideoContent Scenario.parser VideoScenario.parse_analysis
               VideoScenario.env "/videos/talk.mp4" VideoScenario.options Scenario.start in
  match fst out with
  | inr va =>
      map VideoUtils.frameIndex (VideoUtils.frameAnalyses va) = [0; 2]%nat
      /\ VideoUtils.framesAnalyzed (VideoUtils.metadata va) = 2%nat
  | inl _ => False
  end
  /\ files (snd out) = ∅.
Proof. vm_compute. repeat split. Qed.


(** * Further properties *)

Lemma digit_val_char (d : Z) : (0 <= d < 10)%Z -> JsNum.digit_val (JsNum.digit_char d) = d.
Proof.
  intros H. unfold JsNum.digit_val, JsNum.digit_char.
  rewrite nat_ascii_embedding by lia. lia.
Qed.

Lemma read_digits_app (ds rest : string) : forall a c,
  all_digits ds = true ->
  JsNum.read_digits (ds ++ rest)%string a c
  = JsNum.read_digits rest (digits_value ds a) (c + String.length ds)%nat.
Proof.
  induction ds as [|d ds IH]; intros a c H.
  - rewrite append_nil. cbn. rewrite Nat.add_0_r. reflexivity.
  - cbn in H. apply andb_prop in H as [Hd Hds].
    rewrite append_cons. cbn [JsNum.read_digits]. rewrite Hd.
    rewrite IH by exact Hds. cbn [digits_value String.length].
    f_equal. lia.
Qed.

Lemma all_digits_app (a b : string) :
  all_digits (a ++ b)%string = all_digits a && all_digits b.
Proof.
  induction a as [|c a IH]; [rewrite append_nil; reflexivity|].
  rewrite append_cons. cbn. rewrite IH, andb_assoc. reflexivity.
Qed.

Lemma digits_value_app (a b : string) : forall acc,
  digits_value (a ++ b)%string acc = digits_value b (digits_value a acc).
Proof.
  induction a as [|c a IH]; intros acc; [rewrite append_nil; reflexivity|].
  rewrite append_cons. cbn. apply IH.
Qed.

Lemma length_append (a b : string) :
  String.length (a ++ b)%string = (String.length a + String.length b)%nat.
Proof.
  induction a as [|c a IH]; [rewrite append_nil; reflexivity|].
  rewrite append_cons. cbn. rewrite IH. reflexivity.
Qed.

Lemma digits_fuel_S (f : nat) (n : Z) (acc : string) :
  JsNum.digits_fuel (S f) n acc
  = if (n / 10 =? 0)%Z then String (JsNum.digit_char (n mod 10)) acc
    else JsNum.digits_fuel f (n / 10) (String (JsNum.digit_char (n mod 10)) acc).
Proof. reflexivity. Qed.

(** The digits [digits_fuel] writes denote the number it was given. *)
Lemma digits_fuel_value (fuel : nat) : forall n acc,
  (0 <= n < 10 ^ Z.of_nat (S fuel))%Z ->
  exists ds,
    JsNum.digits_fuel (S fuel) n acc = (ds ++ acc)%string
    /\ all_digits ds = true
    /\ ds <> ""%string
    /\ forall a, digits_value ds a = (a * 10 ^ Z.of_nat (String.length ds) + n)%Z.
Proof.
  induction fuel as [|f IH]; intros n acc Hn.
  - change (10 ^ Z.of_nat 1)%Z with 10%Z in Hn.
    rewrite digits_fuel_S.
    assert (H0 : (n / 10 = 0)%Z) by (apply Z.div_small; lia).
    rewrite H0. cbn [Z.eqb].
    exists (String (JsNum.digit_char (n mod 10)) ""). repeat split.
    + cbn. rewrite digit_char_is_digit by (apply Z.mod_pos_bound; lia). reflexivity.
    + discriminate.
    + intros a. cbn. rewrite digit_val_char by (apply Z.mod_pos_bound; lia).
      rewrite Z.mod_small by lia. lia.
  - rewrite digits_fuel_S.
    assert (Hd : (0 <= n mod 10 < 10)%Z) by (apply Z.mod_pos_bound; lia).
    destruct (n / 10 =? 0)%Z eqn:E.
    + apply Z.eqb_eq in E.
      exists (String (JsNum.digit_char (n mod 10)) ""). repeat split.
      * cbn. rewrite digit_char_is_digit by exact Hd. reflexivity.
      * discriminate.
      * intros a. cbn. rewrite digit_val_char by exact Hd.
        pose proof (Z.div_mod n 10). lia.
    + apply Z.eqb_neq in E.
      assert (Hq : (0 <= n / 10 < 10 ^ Z.of_nat (S f))%Z).
      { split; [apply Z.div_pos; lia|].
        apply Z.div_lt_upper_bound; [lia|].
        replace (10 * 10 ^ Z.of_nat (S f))%Z with (10 ^ Z.of_nat (S (S f)))%Z; [lia|].
        rewrite (Nat2Z.inj_succ (S f)), Z.pow_succ_r by lia. reflexivity. }
      destruct (IH (n / 10)%Z (String (JsNum.digit_char (n mod 10)) acc) Hq)
        as (ds & Heq & Hall & Hne & Hval).
      exists (ds ++ String (JsNum.digit_char (n mod 10)) "")%string. repeat split.
      * rewrite Heq, append_assoc, append_cons, append_nil. reflexivity.
      * rewrite all_digits_app, Hall. cbn.
        rewrite digit_char_is_digit by exact Hd. reflexivity.
      * destruct ds; [congruence | rewrite append_cons; discriminate].
      * intros a. rewrite digits_value_app, Hval. cbn [digits_value].
        rewrite digit_val_char by exact Hd.
        rewrite length_append. cbn [String.length].
        rewrite Nat.add_1_r, Nat2Z.inj_succ, Z.pow_succ_r by lia.
        pose proof (Z.div_mod n 10). lia.
Qed.

Lemma decimal_value (n : Z) :
  (0 <= n)%Z ->
  exists c ds,
    JsNum.decimal n = String c ds
    /\ all_digits (String c ds) = true
    /\ forall a, digits_value (String c ds) a
                 = (a * 10 ^ Z.of_nat (String.length (String c ds)) + n)%Z.
Proof.
  intros Hn. unfold JsNum.decimal.
  assert (Hb : (0 <= n < 10 ^ Z.of_nat (S (Z.to_nat (Z.log2 n))))%Z).
  { split; [exact Hn|].
    rewrite Nat2Z.inj_succ, Z2Nat.id by apply Z.log2_nonneg.
    destruct (Z.eq_dec n 0%Z) as [->|Hne]; [reflexivity|].
    apply Z.lt_le_trans with (2 ^ Z.succ (Z.log2 n))%Z.
    - apply Z.log2_spec. lia.
    - apply Z.pow_le_mono_l. split; [lia|lia]. }
  destruct (digits_fuel_value _ n "" Hb) as (ds & Heq & Hall & Hne & Hval).
  destruct ds as [|c ds]; [congruence|].
  exists c, ds. split; [|split; assumption].
  rewrite Heq. clear. generalize (String c ds). intros s.
  induction s as [|a s IH]; [reflexivity|]. rewrite append_cons, IH. reflexivity.
Qed.






(** ** Names of the temporary files *)

Lemma append_inv_head (a x y : string) : (a ++ x)%string = (a ++ y)%string -> x = y.
Proof.
  induction a as [|c a IH]; [rewrite !append_nil; auto|].
  rewrite !append_cons. intros [= H]. auto.
Qed.

Lemma path_join_inj (dir a b : string) : Js.path_join dir a = Js.path_join dir b -> a = b.
Proof.
  unfold Js.path_join. destruct dir as [|c dir]; [auto|].
  intros H. apply append_inv_head in H. apply append_inv_head in H. exact H.
Qed.

(** A number written in decimal and followed by a character that is not
    a digit can be read back. *)
Lemma decimal_prefix_inj (n1 n2 : Z) (c1 c2 : ascii) (t1 t2 : string) :
  (0 <= n1)%Z -> (0 <= n2)%Z ->
  JsNum.is_digit c1 = false -> JsNum.is_digit c2 = false ->
  (JsNum.decimal n1 ++ String c1 t1)%string = (JsNum.decimal n2 ++ String c2 t2)%string ->
  n1 = n2.
Proof.
  intros H1 H2 Hc1 Hc2 Heq.
  destruct (decimal_value n1 H1) as (a1 & ds1 & E1 & A1 & V1).
  destruct (decimal_value n2 H2) as (a2 & ds2 & E2 & A2 & V2).
  rewrite E1, E2 in Heq.
  apply (f_equal (fun s => fst (fst (JsNum.read_digits s 0%Z 0%nat)))) in Heq.
  rewrite !read_digits_app in Heq by assumption.
  cbn [JsNum.read_digits] in Heq. rewrite Hc1, Hc2 in Heq. cbn [fst] in Heq.
  rewrite V1, V2 in Heq. lia.
Qed.

Lemma inputPath_text (tmpdir : string) (now : Z) (digits : list nat) :
  FileUtils.inputPath (FileUtils.createTempPaths tmpdir now digits)
  = Js.path_join tmpdir
      (String "i" (String "n" (String "p" (String "u" (String "t" (String "-"
         (JsNum.decimal now
            ++ String "-" (FileUtils.substring7 (FileUtils.random_text digits)
                             ++ ".webm")))))))).
Proof.
  cbn [FileUtils.inputPath FileUtils.createTempPaths]. f_equal.
  rewrite !append_cons, append_nil, !append_assoc, append_cons, append_nil. reflexivity.
Qed.

Lemma outputPath_text (tmpdir : string) (now : Z) (digits : list nat) :
  FileUtils.outputPath (FileUtils.createTempPaths tmpdir now digits)
  = Js.path_join tmpdir
      (String "o" (String "u" (String "t" (String "p" (String "u" (String "t" (String "-"
         (JsNum.decimal now
            ++ String "-" (FileUtils.substring7 (FileUtils.random_text digits)
                             ++ ".mp3"))))))))).
Proof.
  cbn [FileUtils.outputPath FileUtils.createTempPaths]. f_equal.
  rewrite !append_cons, append_nil, !append_assoc, append_cons, append_nil. reflexivity.
Qed.

Lemma input_is_not_output (tmpdir : string) (n1 n2 : Z) (d1 d2 : list nat) :
  FileUtils.inputPath (FileUtils.createTempPaths tmpdir n1 d1)
  <> FileUtils.outputPath (FileUtils.createTempPaths tmpdir n2 d2).
Proof.
  rewrite inputPath_text, outputPath_text. intros H.
  apply path_join_inj in H. discriminate H.
Qed.

(** X8.  The input path and the output path [createTempPaths] makes are
    never the same file, and two calls at different readings of the
    clock give different input paths and different output paths,
    whatever the random draws. *)
Theorem temp_paths_do_not_collide :
  (forall tmpdir n1 n2 d1 d2,
      FileUtils.inputPath (FileUtils.createTempPaths tmpdir n1 d1)
      <> FileUtils.outputPath (FileUtils.createTempPaths tmpdir n2 d2))
  /\ (forall tmpdir n1 n2 d1 d2,
        (0 <= n1)%Z -> (0 <= n2)%Z -> n1 <> n2 ->
        FileUtils.inputPath (FileUtils.createTempPaths tmpdir n1 d1)
        <> FileUtils.inputPath (FileUtils.createTempPaths tmpdir n2 d2)
        /\ FileUtils.outputPath (FileUtils.createTempPaths tmpdir n1 d1)
           <> FileUtils.outputPath (FileUtils.createTempPaths tmpdir n2 d2)).
Proof.
  split; [apply input_is_not_output|].
  intros tmpdir n1 n2 d1 d2 H1 H2 Hne. split; intros H.
  - rewrite !inputPath_text in H. apply path_join_inj in H.
    injection H as H. apply decimal_prefix_inj in H; auto.
  - rewrite !outputPath_text in H. apply path_join_inj in H.
    injection H as H. apply decimal_prefix_inj in H; auto.
Qed.

Lemma substring_all (s : string) : String.substring 0 (String.length s) s = s.
Proof. induction s as [|c s IH]; [reflexivity|]. cbn. rewrite IH. reflexivity. Qed.

Lemma substring_drop (l : list ascii) : forall k,
  String.substring k (List.length l - k) (string_of_list_ascii l)
  = string_of_list_ascii (drop k l).
Proof.
  induction l as [|c l IH]; intros k.
  - destruct k; reflexivity.
  - destruct k as [|k].
    + cbn [drop]. rewrite Nat.sub_0_r.
      rewrite <- (substring_all (string_of_list_ascii (c :: l))) at 2.
      f_equal. clear. induction (c :: l) as [|a l' IH]; [reflexivity|]. cbn. auto.
    + cbn [List.length Nat.sub string_of_list_ascii String.substring drop]. apply IH.
Qed.

Lemma length_string_of_list (l : list ascii) :
  String.length (string_of_list_ascii l) = List.length l.
Proof. induction l as [|a l IH]; [reflexivity|]. cbn. auto. Qed.

Lemma random_suffix (digits : list nat) :
  FileUtils.substring7 (FileUtils.random_text digits)
  = string_of_list_ascii (map FileUtils.base36_char (drop 5 digits)).
Proof.
  unfold FileUtils.substring7, FileUtils.random_text.
  destruct digits as [|d digits]; [reflexivity|].
  rewrite !append_cons, append_nil.
  set (l := map FileUtils.base36_char (d :: digits)).
  assert (Hlen : String.length (String "0" (String "." (string_of_list_ascii l)))
                 = S (S (List.length l))).
  { cbn [String.length]. rewrite length_string_of_list. reflexivity. }
  rewrite Hlen.
  change (String.substring 7 (S (S (List.length l)) - 7)
            (String "0" (String "." (string_of_list_ascii l))))
    with (String.substring 5 (List.length l - 5) (string_of_list_ascii l)).
  rewrite substring_drop. unfold l. rewrite <- fmap_drop. reflexivity.
Qed.

(** X9.  Of the random draw only the digits after the fifth enter the
    unique id: two draws that agree from the sixth digit on give the
    same paths at the same reading of the clock, and a draw of five
    digits or fewer leaves the id as the clock reading followed by a
    dash. *)
Theorem unique_id_uses_late_digits :
  (forall tmpdir now digits,
      FileUtils.uniqueId (FileUtils.createTempPaths tmpdir now digits)
      = (JsNum.decimal now ++ "-"
           ++ string_of_list_ascii (map FileUtils.base36_char (drop 5 digits)))%string)
  /\ (forall tmpdir now d1 d2,
        drop 5 d1 = drop 5 d2 ->
        FileUtils.createTempPaths tmpdir now d1 = FileUtils.createTempPaths tmpdir now d2)
  /\ (forall tmpdir now digits,
        (List.length digits <= 5)%nat ->
        FileUtils.uniqueId (FileUtils.createTempPaths tmpdir now digits)
        = (JsNum.decimal now ++ "-")%string).
Proof.
  split; [|split].
  - intros. cbn [FileUtils.uniqueId FileUtils.createTempPaths].
    rewrite random_suffix. reflexivity.
  - intros tmpdir now d1 d2 H. unfold FileUtils.createTempPaths.
    rewrite !random_suffix, H. reflexivity.
  - intros tmpdir now digits H. cbn [FileUtils.uniqueId FileUtils.createTempPaths].
    rewrite random_suffix, drop_ge by exact H. reflexivity.
Qed.

(** ** Names of the frames *)



(** ** The classifier and the case of letters *)

Lemma lower_slash (c : ascii) : Ascii.eqb (Js.lower_ascii c) "/" = Ascii.eqb c "/".
Proof. destruct c as [[] [] [] [] [] [] [] []]; reflexivity. Qed.

Lemma lower_dot (c : ascii) : Ascii.eqb (Js.lower_ascii c) "." = Ascii.eqb c ".".
Proof. destruct c as [[] [] [] [] [] [] [] []]; reflexivity. Qed.

Lemma lower_lower (c : ascii) : Js.lower_ascii (Js.lower_ascii c) = Js.lower_ascii c.
Proof. destruct c as [[] [] [] [] [] [] [] []]; reflexivity. Qed.

Lemma toLowerCase_idem (s : string) : Js.toLowerCase (Js.toLowerCase s) = Js.toLowerCase s.
Proof.
  induction s as [|c s IH]; [reflexivity|]. cbn. rewrite lower_lower, IH. reflexivity.
Qed.

Lemma chars_toLowerCase (s : string) :
  chars (Js.toLowerCase s) = map Js.lower_ascii (chars s).
Proof. induction s as [|c s IH]; [reflexivity|]. cbn. f_equal. exact IH. Qed.

Lemma ext_scan_lower (l : list ascii) : forall st,
  Js.ext_scan (map Js.lower_ascii l) st = Js.ext_scan l st.
Proof.
  induction l as [|c l IH]; intros st; [reflexivity|].
  cbn [map Js.ext_scan]. rewrite lower_slash, lower_dot, length_map, !IH. reflexivity.
Qed.

Lemma substring_toLowerCase (s : string) : forall n m,
  String.substring n m (Js.toLowerCase s) = Js.toLowerCase (String.substring n m s).
Proof.
  induction s as [|c s IH]; intros [|n] [|m]; cbn; try reflexivity.
  - rewrite IH. reflexivity.
  - apply IH.
  - apply IH.
Qed.

Lemma extname_toLowerCase (path : string) :
  Js.extname (Js.toLowerCase path) = Js.toLowerCase (Js.extname path).
Proof.
  unfold Js.extname.
  change (list_ascii_of_string (Js.toLowerCase path)) with (chars (Js.toLowerCase path)).
  rewrite chars_toLowerCase, <- map_rev, ext_scan_lower.
  change (chars path) with (list_ascii_of_string path).
  destruct (_ || _); [reflexivity|].
  unfold Js.slice. apply substring_toLowerCase.
Qed.

(** X10.  The classifier does not depend on the case of the letters of the
    path or of the content type. *)
Theorem isAudioFile_ignores_case (filePath : string) (contentType : option string) :
  AudioUtils.isAudioFile (Js.toLowerCase filePath) (option_map Js.toLowerCase contentType)
  = AudioUtils.isAudioFile filePath contentType.
Proof.
  unfold AudioUtils.isAudioFile.
  rewrite extname_toLowerCase, toLowerCase_idem.
  destruct contentType as [[|c ct]|]; try reflexivity.
  cbn [option_map Js.truthy Js.toLowerCase default id].
  rewrite lower_lower, toLowerCase_idem. reflexivity.
Qed.

(** ** Counting words *)

Lemma count_words_space (a b : string) (c : ascii) : forall inWord,
  JsNum.is_space c = true ->
  OpenaiUtils.count_words (a ++ String c b)%string inWord
  = (OpenaiUtils.count_words a inWord + OpenaiUtils.count_words b false)%nat.
Proof.
  induction a as [|x a IH]; intros inWord Hc.
  - rewrite append_nil. cbn. rewrite Hc. reflexivity.
  - rewrite append_cons. cbn [OpenaiUtils.count_words].
    destruct (JsNum.is_space x); rewrite IH by exact Hc; lia.
Qed.

Lemma count_words_zero (s : string) :
  OpenaiUtils.count_words s false = 0%nat <-> blank s = true.
Proof.
  induction s as [|c s IH]; [cbn; tauto|].
  cbn [OpenaiUtils.count_words blank].
  destruct (JsNum.is_space c); cbn [andb]; [exact IH|].
  split; [lia | discriminate].
Qed.

Lemma count_words_bound (s : string) :
  (2 * OpenaiUtils.count_words s false <= String.length s + 1)%nat
  /\ (2 * OpenaiUtils.count_words s true <= String.length s)%nat.
Proof.
  induction s as [|c s [IH1 IH2]]; [cbn; lia|].
  cbn [OpenaiUtils.count_words String.length].
  destruct (JsNum.is_space c); lia.
Qed.

(** X15.  The word count of a transcript adds up over a whitespace
    character, is zero exactly for a text of whitespace only, and is at
    most half the length, rounded up. *)
Theorem wordCount_counts_runs :
  (forall a b c, JsNum.is_space c = true ->
      OpenaiUtils.wordCount (a ++ String c b)%string
      = (OpenaiUtils.wordCount a + OpenaiUtils.wordCount b)%nat)
  /\ (forall s, OpenaiUtils.wordCount s = 0%nat <-> blank s = true)
  /\ (forall s, (2 * OpenaiUtils.wordCount s <= String.length s + 1)%nat).
Proof.
  split; [|split].
  - intros a b c Hc. apply count_words_space, Hc.
  - apply count_words_zero.
  - intros s. apply count_words_bound.
Qed.

(** ** The earlier copy of the audio helpers *)

Lemma some_included_app (l1 l2 : list string) (t : string) :
  AudioUtils.some_included (l1 ++ l2) t
  = AudioUtils.some_included l1 t || AudioUtils.some_included l2 t.
Proof. apply existsb_app. Qed.

(** X11.  The earlier copy of [isAudioFile] decides by the extension first
    and lists [.webm], so it takes every download, stored under a
    [.webm] name, as audio whatever the content type; and apart from
    [.aac] and [audio/aac], which it does not know, it answers true
    wherever the later copy does. *)
Theorem legacy_classifier_takes_every_download_as_audio :
  (forall tmpdir now digits contentType,
      LegacyAudioUtils.isAudioFile
        (FileUtils.inputPath (FileUtils.createTempPaths tmpdir now digits)) contentType
      = true)
  /\ (forall filePath contentType,
        Js.toLowerCase (Js.extname filePath) <> ".aac"%string ->
        Spec.matches ["audio/aac"%string] contentType = false ->
        AudioUtils.isAudioFile filePath contentType = true ->
        LegacyAudioUtils.isAudioFile filePath contentType = true).
Proof.
  split.
  - intros. unfold LegacyAudioUtils.isAudioFile. rewrite inputPath_extname. reflexivity.
  - intros filePath contentType Hext Haac.
    unfold AudioUtils.isAudioFile, LegacyAudioUtils.isAudioFile.
    set (ext := Js.toLowerCase (Js.extname filePath)) in *.
    destruct (Js.array_includes LegacyAudioUtils.audioExtensions ext) eqn:Hl; [reflexivity|].
    assert (Hno : Js.array_includes AudioUtils.audioOnlyExtensions ext = false).
    { unfold Js.array_includes in *. cbn [existsb LegacyAudioUtils.audioExtensions
        AudioUtils.audioOnlyExtensions] in *.
      repeat match goal with
             | H : context [String.eqb ext ?s] |- _ =>
                 destruct (String.eqb_spec ext s); cbn [orb] in H; try discriminate H
             end.
      repeat match goal with
             | |- context [String.eqb ext ?s] =>
                 destruct (String.eqb_spec ext s); cbn [orb]; try congruence
             end. }
    rewrite Hno.
    destruct contentType as [[|c ct]|]; cbn [Js.truthy option_map andb default id];
      try (destruct (Js.array_includes AudioUtils.ambiguousExtensions ext); discriminate).
    cbn [Js.toLowerCase]. cbn [Spec.matches existsb Js.toLowerCase] in Haac.
    rewrite orb_false_r in Haac.
    set (t := String (Js.lower_ascii c) (Js.toLowerCase ct)) in *.
    change AudioUtils.audioMimeTypes
      with (LegacyAudioUtils.audioMimeTypes ++ ["audio/aac"%string]).
    rewrite some_included_app.
    unfold AudioUtils.some_included at 3. cbn [existsb andb]. rewrite Haac, !orb_false_r.
    destruct (AudioUtils.some_included AudioUtils.videoMimeTypes t); [discriminate|].
    destruct (AudioUtils.some_included LegacyAudioUtils.audioMimeTypes t);
      [reflexivity|].
    destruct (Js.array_includes AudioUtils.ambiguousExtensions ext); discriminate.
Qed.

(** X12.  The earlier copy of [extractAudioFromVideo] never returns: where
    the later copy returns, it has written the output file and then
    raises on the undeclared [outputSizeMB]. *)
Theorem legacy_extraction_never_returns :
  (forall clock outcome inputPath outputPath ffmpegPath w,
      exists e,
        fst (LegacyAudioUtils.extractAudioFromVideo clock outcome inputPath outputPath
               ffmpegPath w) = inl e)
  /\ (forall clock bytes inputPath outputPath ffmpegPath w n,
        files w !! inputPath = Some n -> inputPath <> outputPath ->
        let out := LegacyAudioUtils.extractAudioFromVideo clock (AudioUtils.ExtractOk bytes)
                     inputPath outputPath ffmpegPath w in
        fst out = inl (Error "outputSizeMB is not defined")
        /\ files (snd out) = <[outputPath := bytes]> (files w)).
Proof.
  split.
  - intros clock outcome inp out ff w. unfold LegacyAudioUtils.extractAudioFromVideo.
    destruct outcome as [err [n|]|bytes]; eff_unfold; [eauto | eauto |].
    rewrite lookup_insert_eq. eff_unfold.
    destruct (<[out:=bytes]> (files w) !! inp); cbn [fst]; eauto.
  - intros clock bytes inp out ff w n Hin Hne. cbv zeta.
    unfold LegacyAudioUtils.extractAudioFromVideo. eff_unfold.
    rewrite lookup_insert_eq. eff_unfold.
    rewrite lookup_insert_ne by congruence. rewrite Hin. cbn. auto.
Qed.

(** ** The size check *)

(** X6.  [validateFileSize] never changes the disk and never answers the
    client.  It raises the stat error for a missing file, returns the
    size for a file of at most 26214400 bytes (25 MB exactly passes) and
    raises the too-large error above; one byte above the limit the
    message reads 25.00MB. *)
Theorem validateFileSize_threshold :
  (forall filePath w,
      let out := AudioUtils.validateFileSize filePath w in
      files (snd out) = files w
      /\ responses (trace (snd out)) = responses (trace w)
      /\ fst out
         = match files w !! filePath with
           | None =>
               inl (Error ("ENOENT: no such file or directory, stat '" ++ filePath ++ "'"))
           | Some n =>
               if (n <=? 26214400)%N
               then inr {| AudioUtils.sizeBytes := n; AudioUtils.sizeMB := bytesToMB n |}
               else inl (Error (AudioUtils.tooLargeMessage (bytesToMB n)))
           end)
  /\ AudioUtils.tooLargeMessage (bytesToMB 26214401)
     = "Audio file is too large: 25.00MB. Maximum size is 25MB."%string.
Proof.
  split; [|reflexivity].
  intros p w. cbv zeta. unfold AudioUtils.validateFileSize. eff_unfold.
  destruct (files w !! p) as [n|]; cbn [stat_size fst snd files trace].
  - rewrite tooLarge_bytes, N.leb_antisym.
    destruct (26214400 <? n)%N; cbn [negb fst snd files trace];
      rewrite ?responses_app, ?app_nil_r; auto.
  - auto.
Qed.

(** ** Looking for ffmpeg *)

Ltac in_cases H :=
  cbn [In] in H; repeat (destruct H as [H|H]; try discriminate H); try contradiction.

(** X13.  [configureFFmpeg] answers the first of /usr/local/bin,
    /opt/homebrew/bin and /usr/bin that holds ffmpeg, else ["ffmpeg"]
    when [which ffmpeg] succeeds, else null; it runs [which] only when
    the three locations are empty, sets the path of fluent-ffmpeg only
    for a location it found, and warns exactly when it answers null. *)
Theorem configureFFmpeg_precedence (onDisk : string -> bool) (whichOk : bool) :
  let result := fst (Config.configureFFmpeg onDisk whichOk) in
  let acts := snd (Config.configureFFmpeg onDisk whichOk) in
  result
  = (if onDisk "/usr/local/bin/ffmpeg" then Some "/usr/local/bin/ffmpeg"
     else if onDisk "/opt/homebrew/bin/ffmpeg" then Some "/opt/homebrew/bin/ffmpeg"
     else if onDisk "/usr/bin/ffmpeg" then Some "/usr/bin/ffmpeg"
     else if whichOk then Some "ffmpeg" else None)%string
  /\ (In (Config.ExecSync "which ffmpeg") acts
      <-> forall p, In p standardLocations -> onDisk p = false)
  /\ (forall p, In (Config.SetFfmpegPath p) acts
                <-> result = Some p /\ In p standardLocations)
  /\ (In Config.ConsoleWarn acts <-> result = None).
Proof.
  cbv zeta. unfold Config.configureFFmpeg, standardLocations.
  cbn [Config.find Config.ffmpegPaths Config.test String.eqb Ascii.eqb Bool.eqb].
  destruct (onDisk "/usr/local/bin/ffmpeg"%string) eqn:H1;
    [|destruct (onDisk "/opt/homebrew/bin/ffmpeg"%string) eqn:H2;
      [|destruct (onDisk "/usr/bin/ffmpeg"%string) eqn:H3; [|destruct whichOk]]];
    cbn [fst snd app Js.truthy String.eqb Ascii.eqb Bool.eqb negb];
    (split; [reflexivity|]); (split; [|split]).
  all: try (split; intros H;
            first [ solve [in_cases H]
                  | solve [intros p Hp; in_cases Hp; subst p; assumption]
                  | solve [cbn [In]; auto 10]
                  | solve [exfalso; specialize (H _ (or_introl eq_refl)); congruence]
                  | solve [exfalso; specialize (H _ (or_intror (or_introl eq_refl)));
                           congruence]
                  | solve [exfalso;
                           specialize (H _ (or_intror (or_intror (or_introl eq_refl))));
                           congruence]
                  | solve [reflexivity]
                  | solve [discriminate H] ]).
  all: intros p; split;
    [ intros H; in_cases H; try (injection H as <-); (split; [reflexivity|cbn [In]; auto 10])
    | intros [H Hp]; try discriminate H; injection H as <-;
      first [solve [cbn [In]; auto 10] | solve [in_cases Hp]] ].
Qed.

(** ** The client the module keeps *)

(** X14.  [getOpenAIClient] succeeds exactly when a client was built before
    or the key is set, with the error of the model used above otherwise,
    and a failed call keeps nothing.  Once a call has succeeded every
    later call returns the same client, whatever the key has become in
    the environment, also after [createTranscriptionRouter] was given
    another key. *)
Theorem client_is_built_once :
  (forall p w,
      match fst (OpenaiClient.getOpenAIClient p),
            fst (OpenaiUtils.getOpenAIClient (clientReady p) w) with
      | inr _, inr _ => clientReady p = true
      | inl e, inl e' => e = e' /\ clientReady p = false
                         /\ snd (OpenaiClient.getOpenAIClient p) = p
      | _, _ => False
      end)
  /\ (forall p client p1,
        OpenaiClient.getOpenAIClient p = (inr client, p1) ->
        forall key,
          OpenaiClient.getOpenAIClient
            {| OpenaiClient.OPENAI_API_KEY := key;
               OpenaiClient.openaiClient := OpenaiClient.openaiClient p1 |}
          = (inr client,
             {| OpenaiClient.OPENAI_API_KEY := key;
                OpenaiClient.openaiClient := OpenaiClient.openaiClient p1 |}))
  /\ (forall p client p1 options onDisk whichOk,
        OpenaiClient.getOpenAIClient p = (inr client, p1) ->
        fst (OpenaiClient.getOpenAIClient
               (fst (Package.createTranscriptionRouter options onDisk whichOk p1)))
        = inr client).
Proof.
  split; [|split].
  - intros [key client] w. unfold OpenaiClient.getOpenAIClient, clientReady.
    cbn [OpenaiClient.openaiClient OpenaiClient.OPENAI_API_KEY].
    destruct client as [c|]; [reflexivity|].
    destruct key as [[|a k]|]; cbn; auto.
  - intros [key client] c p1 H k'. unfold OpenaiClient.getOpenAIClient in *.
    cbn [OpenaiClient.openaiClient OpenaiClient.OPENAI_API_KEY] in *.
    destruct client as [c0|].
    + injection H as <- <-. reflexivity.
    + destruct key as [[|a k]|]; try discriminate H. injection H as <- <-. reflexivity.
  - intros [key client] c p1 options onDisk whichOk H.
    unfold Package.createTranscriptionRouter. cbn [fst].
    unfold OpenaiClient.getOpenAIClient in *.
    cbn [OpenaiClient.openaiClient OpenaiClient.OPENAI_API_KEY] in *.
    destruct client as [c0|].
    + injection H as <- <-. destruct (Js.truthy (Package.openaiApiKey options)); reflexivity.
    + destruct key as [[|a k]|]; try discriminate H. injection H as <- <-.
      destruct (Js.truthy (Package.openaiApiKey options)); reflexivity.
Qed.

(** ** What the aggregation reports *)







Section ArrayFromSet.

Context {A : Type} (eqb : A -> A -> bool).
Hypothesis eqb_eq : forall x y, eqb x y = true <-> x = y.

Lemma setAdd_In (x y : A) (seen : list A) :
  In y (VideoUtils.setAdd eqb x seen) <-> y = x \/ In y seen.
Proof.
  induction seen as [|z seen IH]; cbn [VideoUtils.setAdd In]; [intuition auto|].
  destruct (eqb z x) eqn:E.
  - apply eqb_eq in E. subst z. cbn [In]. intuition auto.
  - cbn [In]. rewrite IH. intuition auto.
Qed.

Lemma setAdd_NoDup (x : A) (seen : list A) :
  NoDup seen -> NoDup (VideoUtils.setAdd eqb x seen).
Proof.
  induction seen as [|z seen IH]; intros H; cbn [VideoUtils.setAdd].
  - constructor; [intros Hin; inversion Hin | constructor].
  - destruct (eqb z x) eqn:E; [exact H|].
    apply NoDup_cons in H as (Hz & Hs). constructor; [|auto].
    intros Hin. apply list_elem_of_In, setAdd_In in Hin as [->|Hin].
    + assert (Ht : eqb x x = true) by (apply eqb_eq; reflexivity). congruence.
    + apply Hz, list_elem_of_In, Hin.
Qed.

Lemma arrayFromSet_fold (xs : list A) : forall seen,
  NoDup seen ->
  NoDup (fold_left (fun seen x => VideoUtils.setAdd eqb x seen) xs seen)
  /\ forall y, In y (fold_left (fun seen x => VideoUtils.setAdd eqb x seen) xs seen)
               <-> In y seen \/ In y xs.
Proof.
  induction xs as [|x xs IH]; intros seen H; cbn [fold_left In].
  - split; [exact H | intuition auto].
  - destruct (IH _ (setAdd_NoDup x seen H)) as (Hn & Hi). split; [exact Hn|].
    intros y. rewrite Hi, setAdd_In. intuition auto.
Qed.

Lemma arrayFromSet_spec (xs : list A) :
  NoDup (VideoUtils.arrayFromSet eqb xs)
  /\ forall y, In y (VideoUtils.arrayFromSet eqb xs) <-> In y xs.
Proof.
  destruct (arrayFromSet_fold xs [] (NoDup_nil_2)) as (Hn & Hi).
  split; [exact Hn|]. intros y. rewrite Hi. cbn [In]. intuition auto.
Qed.

End ArrayFromSet.

Lemma option_string_eqb_eq (a b : option string) :
  VideoUtils.option_string_eqb a b = true <-> a = b.
Proof.
  destruct a as [x|], b as [y|]; cbn; try (split; [discriminate | congruence]).
  - rewrite String.eqb_eq. split; congruence.
  - tauto.
Qed.

Lemma In_concat_omap {B C} (f : B -> option (list C)) (l : list B) (x : C) :
  In x (concat (omap f l)) <-> exists b ys, In b l /\ f b = Some ys /\ In x ys.
Proof.
  rewrite in_concat. split.
  - intros (ys & Hys & Hx). apply list_elem_of_In, list_elem_of_omap in Hys as (b & Hb & Hf).
    exists b, ys. rewrite <- list_elem_of_In. auto.
  - intros (b & ys & Hb & Hf & Hx). exists ys. split; [|exact Hx].
    apply list_elem_of_In, list_elem_of_omap. exists b. rewrite list_elem_of_In. auto.
Qed.

(** X17.  The aggregated activities and objects list each value the frames
    name once and nothing else; the locations are an object exactly for
    a list that is not empty, whose [all] lists each label of the frames
    once and nothing else, and whose [mostCommon] is ["unknown"] when no
    frame has a location. *)
Theorem aggregate_lists_what_the_frames_name
    (frameAnalyses : list VideoUtils.FrameAnalysis) :
  let ag := VideoUtils.aggregateFrameAnalyses frameAnalyses in
  NoDup (VideoUtils.ag_activities ag)
  /\ (forall x, In x (VideoUtils.ag_activities ag)
                <-> named VideoUtils.activities frameAnalyses x)
  /\ NoDup (VideoUtils.commonObjects ag)
  /\ (forall x, In x (VideoUtils.commonObjects ag)
                <-> named VideoUtils.objects frameAnalyses x)
  /\ match VideoUtils.locations ag with
     | None => frameAnalyses = []
     | Some loc =>
         NoDup (VideoUtils.all loc)
         /\ (forall l, In l (VideoUtils.all loc)
                       <-> In l (VideoUtils.allLocations frameAnalyses))
         /\ (VideoUtils.allLocations frameAnalyses = [] ->
             VideoUtils.mostCommon loc = "unknown"%string)
     end.
Proof.
  cbv zeta. unfold named. destruct frameAnalyses as [|fa rest].
  - cbn. repeat split; try constructor; try tauto; intros (? & ? & [] & _).
  - unfold VideoUtils.aggregateFrameAnalyses.
    cbn [VideoUtils.ag_activities VideoUtils.commonObjects VideoUtils.locations
         VideoUtils.all VideoUtils.mostCommon].
    set (frames := fa :: rest).
    destruct (arrayFromSet_spec String.eqb String.eqb_eq
                (concat (omap (fun fa => VideoUtils.activities (VideoUtils.analysis fa))
                           frames))) as (N1 & I1).
    destruct (arrayFromSet_spec String.eqb String.eqb_eq
                (concat (omap (fun fa => VideoUtils.objects (VideoUtils.analysis fa))
                           frames))) as (N2 & I2).
    destruct (arrayFromSet_spec VideoUtils.option_string_eqb option_string_eqb_eq
                (VideoUtils.allLocations frames)) as (N3 & I3).
    split; [exact N1|]. split.
    { intros x. rewrite I1. apply (In_concat_omap
        (fun fa => VideoUtils.activities (VideoUtils.analysis fa))). }
    split; [exact N2|]. split.
    { intros x. rewrite I2. apply (In_concat_omap
        (fun fa => VideoUtils.objects (VideoUtils.analysis fa))). }
    split; [exact N3|]. split; [exact I3|].
    intros ->. reflexivity.
Qed.

(** ** What a run does to the disk *)

Lemma keeps_bind {A B} J (m : Eff.M A) (k : A -> Eff.M B) :
  keeps J m -> (forall x, keeps J (k x)) -> keeps J (Eff.bind m k).
Proof.
  intros Hm Hk w Hw. unfold Eff.bind. specialize (Hm w Hw).
  destruct (m w) as [[e|x] w1]; cbn [snd] in *; [exact Hm | apply Hk, Hm].
Qed.

Lemma keeps_try_catch {A} J (body : Eff.M A) (handler : JsError -> Eff.M A) :
  keeps J body -> (forall e, keeps J (handler e)) -> keeps J (Eff.try_catch body handler).
Proof.
  intros Hm Hk w Hw. unfold Eff.try_catch. specialize (Hm w Hw).
  destruct (body w) as [[e|x] w1]; cbn [snd] in *; [apply Hk, Hm | exact Hm].
Qed.

Lemma keeps_finally {A} J (body : Eff.M A) (final : Eff.M unit) :
  keeps J body -> keeps J final -> keeps J (Eff.finally body final).
Proof.
  intros Hm Hk w Hw. unfold Eff.finally. specialize (Hm w Hw).
  destruct (body w) as [r w1]. cbn [snd] in Hm. specialize (Hk w1 Hm).
  destruct (final w1) as [[e|u] w2]; exact Hk.
Qed.

Lemma keeps_ret {A} J (x : A) : keeps J (Eff.ret x).
Proof. intros w Hw. exact Hw. Qed.

Lemma keeps_throw {A} J (e : JsError) : keeps J (@Eff.throw A e).
Proof. intros w Hw. exact Hw. Qed.

Lemma keeps_emit J (e : Event) : keeps J (Eff.emit e).
Proof. intros w Hw. exact Hw. Qed.

Lemma keeps_Date_now J clock : keeps J (Eff.Date_now clock).
Proof. intros w Hw. exact Hw. Qed.

Lemma keeps_existsSync J p : keeps J (Eff.existsSync p).
Proof. intros w Hw. exact Hw. Qed.

Lemma keeps_statSync J p : keeps J (Eff.statSync p).
Proof. intros w Hw. unfold Eff.statSync. destruct (files w !! p); exact Hw. Qed.

Lemma keeps_readdirSync J dir : keeps J (Eff.readdirSync dir).
Proof. intros w Hw. exact Hw. Qed.

Lemma keeps_writeFile J p n : closedAt J p -> keeps J (Eff.writeFile p n).
Proof. intros Hc w Hw. cbn. apply Hc, Hw. Qed.

Lemma keeps_unlinkSync J f p : closedAt J p -> keeps J (Eff.unlinkSync f p).
Proof.
  intros Hc w Hw. unfold Eff.unlinkSync.
  destruct (files w !! p); [destruct (f p)|]; cbn [snd files]; try exact Hw.
  apply Hc, Hw.
Qed.

Lemma keeps_getOpenAIClient J ready : keeps J (OpenaiUtils.getOpenAIClient ready).
Proof. destruct ready; intros w Hw; exact Hw. Qed.

Lemma keeps_defined {A} J what (o : option A) : keeps J (OpenaiUtils.defined what o).
Proof. destruct o; intros w Hw; exact Hw. Qed.

Lemma keeps_parse J parse content : keeps J (OpenaiUtils.parse parse content).
Proof.
  unfold OpenaiUtils.parse. destruct content as [s|]; [destruct (parse s)|];
    intros w Hw; exact Hw.
Qed.

Ltac keeps_step :=
  first
    [ apply keeps_ret | apply keeps_throw | apply keeps_emit | apply keeps_Date_now
    | apply keeps_existsSync | apply keeps_statSync | apply keeps_readdirSync
    | apply keeps_getOpenAIClient | apply keeps_defined | apply keeps_parse
    | apply keeps_bind; [|intros ?]
    | apply keeps_try_catch; [|intros ?]
    | apply keeps_finally
    | match goal with
      | |- keeps _ (if ?b then _ else _) => destruct b
      | |- keeps _ (match ?x with _ => _ end) => destruct x
      | H : closedAt ?J ?p |- keeps ?J (Eff.writeFile ?p _) => apply keeps_writeFile, H
      | H : closedAt ?J ?p |- keeps ?J (Eff.unlinkSync _ ?p) => apply keeps_unlinkSync, H
      end ].

Ltac keeps_auto := repeat keeps_step.

Lemma keeps_cleanupFiles J f (l : list (option string)) :
  (forall p, In (Some p) l -> closedAt J p) -> keeps J (FileUtils.cleanupFiles f l).
Proof.
  induction l as [|filePath rest IH]; intros Hc; [apply keeps_ret|].
  assert (Hrest : keeps J (FileUtils.cleanupFiles f rest))
    by (apply IH; intros p Hp; apply Hc; right; exact Hp).
  cbn [FileUtils.cleanupFiles]. destruct filePath as [[|c p]|]; try exact Hrest.
  assert (Hp : closedAt J (String c p)) by (apply Hc; left; reflexivity).
  keeps_auto; exact Hrest.
Qed.

Lemma keeps_downloadFile J clock outcome url p :
  closedAt J p -> keeps J (FileUtils.downloadFile clock outcome url p).
Proof. intros Hp. unfold FileUtils.downloadFile. keeps_auto. Qed.

Lemma keeps_extractAudioFromVideo J clock outcome inp out ff :
  closedAt J out -> keeps J (AudioUtils.extractAudioFromVideo clock outcome inp out ff).
Proof. intros Hp. unfold AudioUtils.extractAudioFromVideo. keeps_auto. Qed.

Lemma keeps_validateFileSize J p : keeps J (AudioUtils.validateFileSize p).
Proof. unfold AudioUtils.validateFileSize. keeps_auto. Qed.

Lemma keeps_transcribeAudio J clock outcome ready p :
  keeps J (OpenaiUtils.transcribeAudio clock outcome ready p).
Proof.
  unfold OpenaiUtils.transcribeAudio. keeps_auto.
  intros w Hw. exact Hw.
Qed.

Lemma keeps_analyzeSentiment J parse clock outcome ready text :
  keeps J (OpenaiUtils.analyzeSentiment parse clock outcome ready text).
Proof. unfold OpenaiUtils.analyzeSentiment. keeps_auto. Qed.

Lemma keeps_generateSummary J clock outcome ready text prompt :
  keeps J (OpenaiUtils.generateSummary clock outcome ready text prompt).
Proof. unfold OpenaiUtils.generateSummary. keeps_auto. Qed.

Lemma keeps_catch_block J env originalUrl startTime tin tout err :
  (forall p, tin = Some p \/ tout = Some p -> closedAt J p) ->
  keeps J (Route.catch_block env originalUrl startTime tin tout err).
Proof.
  intros Hc. unfold Route.catch_block, Route.respond. keeps_auto.
  apply keeps_cleanupFiles. intros p Hp. apply Hc.
  destruct tin as [[|? ?]|], tout as [[|? ?]|]; cbn in Hp; intuition congruence.
Qed.

Lemma keeps_pipeline J parse env u prompt originalUrl startTime tin tout :
  closedAt J tin -> closedAt J tout ->
  keeps J (Route.pipeline parse env u prompt originalUrl startTime tin tout).
Proof.
  intros Hin Hout. unfold Route.pipeline, Route.respond.
  repeat first
    [ apply keeps_downloadFile, Hin
    | apply keeps_extractAudioFromVideo, Hout
    | apply keeps_validateFileSize
    | apply keeps_transcribeAudio
    | apply keeps_analyzeSentiment
    | apply keeps_generateSummary
    | apply keeps_cleanupFiles
    | keeps_step ].
  - intros p Hp.
    match goal with
    | H : In _ (if ?b then _ else _) |- _ => destruct b
    end; cbn [In] in Hp;
      repeat (destruct Hp as [Hp|Hp]; [injection Hp as <-; assumption|]);
      contradiction.
Qed.

Lemma sameOutside_closed (paths : list string) (m0 : gmap string N) (p : string) :
  In p paths -> closedAt (sameOutside paths m0) p.
Proof.
  intros Hp m Hm. split.
  - intros n q Hq. rewrite lookup_insert_ne by (intros ->; contradiction). apply Hm, Hq.
  - intros q Hq. rewrite lookup_delete_ne by (intros ->; contradiction). apply Hm, Hq.
Qed.

Lemma sameOutside_refl (paths : list string) (m : gmap string N) : sameOutside paths m m.
Proof. intros q _. reflexivity. Qed.

Lemma catch_block_returns env originalUrl startTime tin tout err w :
  fst (Route.catch_block env originalUrl startTime tin tout err w) = inr tt.
Proof.
  destruct (Route.catch_block env originalUrl startTime tin tout err w) as [r w'] eqn:H.
  apply catch_block_run in H as (-> & _). reflexivity.
Qed.

Lemma transcribe_frame JSON_parse env req w :
  sameOutside (tempPaths env req w) (files w)
    (files (snd (Route.transcribe JSON_parse env req w))).
Proof.
  unfold Route.transcribe, tempPaths, requestPaths.
  destruct (Route.body req) as [b|].
  - destruct (Route.url b) as [|[|c u]|]; try (intros q _; reflexivity).
    destruct (Route.apiKey env); [|intros q _; reflexivity].
    set (paths := FileUtils.createTempPaths _ _ _).
    set (J := sameOutside [FileUtils.inputPath paths; FileUtils.outputPath paths] (files w)).
    assert (Hin : closedAt J (FileUtils.inputPath paths))
      by (apply sameOutside_closed; left; reflexivity).
    assert (Hout : closedAt J (FileUtils.outputPath paths))
      by (apply sameOutside_closed; right; left; reflexivity).
    eff_unfold. cbn [negb]. eff_unfold. fold paths.
    match goal with
    | |- context [Route.pipeline ?a ?b ?c ?d ?e ?f ?g ?h ?W] =>
        pose proof (keeps_pipeline J a b c d e f g h Hin Hout W (sameOutside_refl _ _)) as Hp;
        destruct (Route.pipeline a b c d e f g h W) as [[e0|x] w1]
    end; cbn [snd] in Hp.
    + match goal with
      | |- context [Route.catch_block ?a ?b ?c ?d ?e ?f w1] =>
          assert (Hc : J (files (snd (Route.catch_block a b c d e f w1))));
          [ apply keeps_catch_block; [|exact Hp];
            intros p [[= <-]|[= <-]]; assumption
          | pose proof (catch_block_returns a b c d e f w1) as Hr;
            destruct (Route.catch_block a b c d e f w1) as [r w2] ]
      end.
      cbn [fst snd] in *. subst r. exact Hc.
    + exact Hp.
  - eff_unfold.
    match goal with
    | |- context [Route.catch_block ?a ?b ?c ?d ?e ?f ?W] =>
        apply (keeps_catch_block (sameOutside [] (files w)) a b c d e f)
    end; [intros p [H|H]; discriminate H | apply sameOutside_refl].
Qed.

(** [cleanupFiles] when no deletion is refused. *)
Lemma cleanupFiles_ok f (l : list (option string)) :
  (forall p, f p = None) ->
  forall w, exists entries w',
    FileUtils.cleanupFiles f l w = (inr entries, w')
    /\ (forall c p, In (Some (String c p)) l -> files w' !! String c p = None)
    /\ (forall q, q = ""%string \/ ~ In (Some q) l -> files w' !! q = files w !! q)
    /\ (forall q, files w !! q = None -> files w' !! q = None)
    /\ Forall (fun e => cleanedEntry (files w) e /\ In (Some (cf_path e)) l
                        /\ cf_path e <> ""%string) entries
    /\ NoDup (map cf_path entries)
    /\ (forall c p, In (Some (String c p)) l -> is_Some (files w !! String c p) ->
                    In (String c p) (map cf_path entries)).
Proof.
  intros Hf. induction l as [|filePath rest IH]; intros w.
  - exists [], w. cbn. repeat split; auto; try constructor; intros ? ? [].
  - assert (Hskip : (forall c p, filePath <> Some (String c p)) ->
      exists entries w',
        FileUtils.cleanupFiles f rest w = (inr entries, w')
        /\ (forall c p, In (Some (String c p)) (filePath :: rest) ->
                        files w' !! String c p = None)
        /\ (forall q, q = ""%string \/ ~ In (Some q) (filePath :: rest) ->
                      files w' !! q = files w !! q)
        /\ (forall q, files w !! q = None -> files w' !! q = None)
        /\ Forall (fun e => cleanedEntry (files w) e
                            /\ In (Some (cf_path e)) (filePath :: rest)
                            /\ cf_path e <> ""%string) entries
        /\ NoDup (map cf_path entries)
        /\ (forall c p, In (Some (String c p)) (filePath :: rest) ->
                        is_Some (files w !! String c p) ->
                        In (String c p) (map cf_path entries))).
    { intros Hne. destruct (IH w) as (entries & w' & Hrun & A & B & C & D & E & F).
      exists entries, w'. split; [exact Hrun|].
      split; [intros c p [H|H]; [destruct (Hne c p H) | auto]|].
      split; [intros q [Hq|Hq]; apply B;
              [left; exact Hq | right; intros H; apply Hq; right; exact H]|].
      split; [exact C|].
      split; [eapply Forall_impl; [exact D|]; cbn; intros e (H1 & H2 & H3); split;
              [exact H1 | split; [right; exact H2 | exact H3]]|].
      split; [exact E|].
      intros c p [H|H]; [destruct (Hne c p H) | auto]. }
    cbn [FileUtils.cleanupFiles].
    destruct filePath as [[|c p]|]; try (apply Hskip; congruence). clear Hskip.
    set (path := String c p).
    destruct (files w !! path) as [n|] eqn:Hp.
    + cbv [Eff.bind Eff.existsSync Eff.try_catch Eff.statSync Eff.unlinkSync Eff.ret];
        cbn [files clock_reads trace]; rewrite !Hp.
      rewrite bool_decide_eq_true_2 by eauto.
      repeat (progress (cbn [files clock_reads trace stat_size]; rewrite ?Hp)).
      rewrite Hf. cbn [files clock_reads trace].
      match goal with
      | |- context [FileUtils.cleanupFiles f rest ?W] =>
          destruct (IH W) as (entries & w' & Hrun & A & B & C & D & E & F); rewrite Hrun
      end.
      cbn [files] in *. eexists _, w'. split; [reflexivity|].
      assert (Hgone : files w' !! path = None) by (apply C, lookup_delete_eq).
      split.
      { intros c' p' [[= <- <-]|H]; [exact Hgone | auto]. }
      split.
      { intros q Hq.
        rewrite B by (destruct Hq as [Hq|Hq];
                      [left; exact Hq | right; intros H; apply Hq; right; exact H]).
        apply lookup_delete_ne. intros <-.
        destruct Hq as [Hq|Hq]; [discriminate Hq | apply Hq; left; reflexivity]. }
      split.
      { intros q Hq. apply C. rewrite lookup_delete_None. auto. }
      assert (Hold : forall e, cleanedEntry (delete path (files w)) e ->
                cleanedEntry (files w) e /\ cf_path e <> path).
      { intros e (H1 & H2 & H3 & H4).
        assert (Hne : cf_path e <> path).
        { intros Heq. rewrite Heq, lookup_delete_eq in H4. destruct H4 as (? & H4).
          discriminate H4. }
        rewrite lookup_delete_ne in H3, H4 by congruence.
        repeat split; auto. }
      split.
      { constructor.
        - split; [|split; [left; reflexivity | discriminate]].
          unfold cleanedEntry. cbn [cf_cleaned cf_error cf_sizeBytes cf_path].
          fold path. rewrite Hp. eauto.
        - eapply Forall_impl; [exact D|]. cbn. intros e (H1 & H2 & H3).
          split; [apply Hold, H1 | split; [right; exact H2 | exact H3]]. }
      split.
      { cbn [map cf_path]. constructor; [|exact E].
        intros Hin. apply list_elem_of_In, in_map_iff in Hin as (e & Heq & He).
        rewrite List.Forall_forall in D. destruct (D e He) as (H1 & _).
        apply Hold in H1 as (_ & Hne). congruence. }
      intros c' p' [[= <- <-]|H] Hsome; [left; reflexivity|].
      destruct (String.string_dec (String c' p') path) as [Heq|Hne];
        [left; symmetry; exact Heq|].
      right. apply F; [exact H|]. rewrite lookup_delete_ne by congruence. exact Hsome.
    + cbv [Eff.bind Eff.existsSync]; cbn [files clock_reads trace]; rewrite !Hp.
      rewrite bool_decide_eq_false_2 by (intros [? ?]; discriminate).
      match goal with
      | |- context [FileUtils.cleanupFiles f rest ?W] =>
          destruct (IH W) as (entries & w' & Hrun & A & B & C & D & E & F); rewrite Hrun
      end.
      cbn [files] in *. exists entries, w'. split; [reflexivity|].
      split.
      { intros c' p' [[= <- <-]|H]; [apply C, Hp | auto]. }
      split; [intros q [Hq|Hq]; apply B;
              [left; exact Hq | right; intros H; apply Hq; right; exact H]|].
      split; [exact C|].
      split.
      { eapply Forall_impl; [exact D|]. cbn. intros e (H1 & H2 & H3). split; [exact H1|].
        split; [right; exact H2 | exact H3]. }
      split; [exact E|].
      intros c' p' [[= <- <-]|H] Hsome; [|auto].
      fold path in Hsome. rewrite Hp in Hsome. destruct Hsome as (? & Hs). discriminate Hs.
Qed.

(** X5.  When no deletion is refused, [cleanupFiles] returns; afterwards no
    listed path exists and every other file is untouched; its result
    holds one entry, marked cleaned and carrying the size, for each
    listed file that existed, none twice; and a second call on the same
    list finds nothing, returns the empty list and changes no file. *)
Theorem cleanupFiles_deletes_what_it_lists (l : list (option string)) (w : World) :
  exists entries w',
    FileUtils.cleanupFiles (fun _ => None) l w = (inr entries, w')
    /\ (forall c p, In (Some (String c p)) l -> files w' !! String c p = None)
    /\ (forall q, q = ""%string \/ ~ In (Some q) l -> files w' !! q = files w !! q)
    /\ Forall (fun e => cleanedEntry (files w) e /\ In (Some (cf_path e)) l) entries
    /\ NoDup (map cf_path entries)
    /\ (forall c p, In (Some (String c p)) l -> is_Some (files w !! String c p) ->
                    In (String c p) (map cf_path entries))
    /\ exists w'',
         FileUtils.cleanupFiles (fun _ => None) l w' = (inr [], w'')
         /\ files w'' = files w'.
Proof.
  destruct (cleanupFiles_ok (fun _ => None) l (fun _ => eq_refl) w)
    as (entries & w' & Hrun & A & B & C & D & E & F).
  exists entries, w'. split; [exact Hrun|]. split; [exact A|]. split; [exact B|].
  split; [eapply Forall_impl; [exact D|]; cbn; tauto|].
  split; [exact E|]. split; [exact F|].
  destruct (cleanupFiles_ok (fun _ => None) l (fun _ => eq_refl) w')
    as (entries2 & w'' & Hrun2 & A2 & B2 & C2 & D2 & _ & _).
  assert (Hnil : entries2 = []).
  { destruct entries2 as [|e rest]; [reflexivity|]. exfalso.
    apply Forall_cons in D2 as (((_ & _ & _ & Hs) & Hin & Hne) & _).
    destruct (cf_path e) as [|c p] eqn:Hpath; [congruence|].
    rewrite (A c p Hin) in Hs. destruct Hs as (? & Hs). discriminate Hs. }
  subst entries2. exists w''. split; [exact Hrun2|].
  apply map_eq. intros q.
  destruct (files w' !! q) as [n|] eqn:Hq; [|apply C2, Hq].
  rewrite B2; [exact Hq|].
  destruct q as [|c p]; [left; reflexivity|]. right.
  intros Hin. rewrite (A c p Hin) in Hq. discriminate Hq.
Qed.

(** ** What a request answers *)
















(** A request refused before the download calls nothing outside. *)
Lemma transcribe_refused_early parse env req w :
  requestPaths env req w = None ->
  files (snd (Route.transcribe parse env req w)) = files w
  /\ exists evs,
       trace (snd (Route.transcribe parse env req w)) = trace w ++ evs
       /\ Forall (fun e => outsideCall e = false) evs
       /\ exists status error message url,
            responses evs = [EvRespond status (BodyError error message url)].
Proof.
  unfold requestPaths, Route.transcribe, Route.catch_block.
  destruct (Route.body req) as [b|].
  - destruct (Route.url b) as [|[|c u]|];
      try (intros _; eff_unfold; cbn [snd trace files]; split; [reflexivity|];
           eexists; split; [rewrite <- !app_assoc; reflexivity|];
           split; [repeat constructor | do 4 eexists; reflexivity]).
    destruct (Route.apiKey env); [discriminate|].
    intros _; eff_unfold; cbn [negb]; eff_unfold; cbn [snd trace files].
    split; [reflexivity|].
    eexists; split; [rewrite <- !app_assoc; reflexivity|].
    split; [repeat constructor | do 4 eexists; reflexivity].
  - intros _. eff_unfold.
    cbn [snd trace List.filter Js.truthy FileUtils.cleanupFiles]. eff_unfold.
    cbn [List.length Nat.ltb Nat.leb snd trace files]. eff_unfold. cbn [snd trace files].
    split; [reflexivity|].
    eexists; split; [rewrite <- !app_assoc; reflexivity|].
    split; [repeat constructor | do 4 eexists; reflexivity].
Qed.

(** ** Sampling the frames *)




(** ** The directory of the frames *)

Lemma startsWith_append (a b : string) : Js.startsWith (a ++ b)%string a = true.
Proof.
  induction a as [|c a IH]; [destruct b; reflexivity|].
  rewrite append_cons. cbn. rewrite Ascii.eqb_refl. exact IH.
Qed.

Lemma framePath_under (dir : string) (f : Z * Q) :
  dir <> ""%string -> under dir (VideoUtils.framePath dir f) = true.
Proof.
  intros Hd. unfold under, VideoUtils.framePath, Js.path_join.
  destruct dir as [|c dir]; [congruence|].
  rewrite <- append_assoc. apply startsWith_append.
Qed.

Lemma framesDir_nonempty env w : framesDir env w <> ""%string.
Proof.
  unfold framesDir, Js.path_join.
  destruct (VideoUtils.tmpdir env); rewrite !append_cons; discriminate.
Qed.

Lemma keeps_runGrabs J grab dir plan :
  (forall f, In f plan -> closedAt J (VideoUtils.framePath dir f)) ->
  keeps J (VideoUtils.runGrabs grab dir plan).
Proof.
  induction plan as [|frame rest IH]; intros Hc; [apply keeps_ret|].
  assert (Hrest : keeps J (VideoUtils.runGrabs grab dir rest))
    by (apply IH; intros f Hf; apply Hc; right; exact Hf).
  assert (Hframe : closedAt J (VideoUtils.framePath dir frame))
    by (apply Hc; left; reflexivity).
  cbn [VideoUtils.runGrabs]. keeps_auto; exact Hrest.
Qed.

Lemma keeps_extractFrames J clock probe grab videoPath dir options :
  (forall f, closedAt J (VideoUtils.framePath dir f)) ->
  keeps J (VideoUtils.extractFrames clock probe grab videoPath dir options).
Proof.
  intros Hc. unfold VideoUtils.extractFrames. keeps_auto.
  apply keeps_runGrabs. intros f _. apply Hc.
Qed.

Lemma keeps_analyzeFrames J parse env interval framePaths : forall i pushed,
  keeps J (VideoUtils.analyzeFrames parse env interval framePaths i pushed).
Proof.
  induction framePaths as [|p rest IH]; intros i pushed; [apply keeps_ret|].
  cbn [VideoUtils.analyzeFrames]. unfold VideoUtils.parseAnalysis.
  keeps_auto; apply IH.
Qed.

Lemma keeps_summarize J parse env : keeps J (VideoUtils.summarize parse env).
Proof. unfold VideoUtils.summarize. keeps_auto. Qed.

Lemma unlinkAll_ok f (l : list string) :
  (forall p, f p = None) ->
  forall w,
    NoDup l -> (forall p, In p l -> is_Some (files w !! p)) ->
    exists w',
      VideoUtils.unlinkAll f l w = (inr tt, w')
      /\ (forall q, In q l -> files w' !! q = None)
      /\ (forall q, ~ In q l -> files w' !! q = files w !! q).
Proof.
  intros Hf. induction l as [|p rest IH]; intros w Hnd Hall.
  - exists w. cbn. repeat split; auto. intros q [].
  - apply NoDup_cons in Hnd as (Hfresh & Hnd). rewrite list_elem_of_In in Hfresh.
    destruct (Hall p (or_introl eq_refl)) as (n & Hp).
    cbn [VideoUtils.unlinkAll]. unfold Eff.bind at 1, Eff.unlinkSync.
    rewrite Hp, Hf.
    match goal with
    | |- context [VideoUtils.unlinkAll f rest ?W] =>
        destruct (IH W Hnd) as (w' & Hrun & Hgone & Hframe);
        [|rewrite Hrun]
    end.
    { cbn [files]. intros q Hq. rewrite lookup_delete_ne by congruence.
      apply Hall. right. exact Hq. }
    cbn [files] in *. exists w'. split; [reflexivity|]. split.
    + intros q [<-|Hq]; [|auto]. rewrite Hframe by exact Hfresh. apply lookup_delete_eq.
    + intros q Hq. rewrite Hframe by (intros H; apply Hq; right; exact H).
      apply lookup_delete_ne. intros <-. apply Hq. left. reflexivity.
Qed.

Lemma readdir_listing (dir : string) (m : gmap string N) :
  let l := List.filter (fun p => Js.startsWith p (dir ++ "/"))
             (map fst (map_to_list m)) in
  NoDup l /\ forall q, In q l <-> (is_Some (m !! q) /\ under dir q = true).
Proof.
  cbv zeta. split.
  - apply NoDup_ListNoDup, List.NoDup_filter, NoDup_ListNoDup, NoDup_fst_map_to_list.
  - intros q. rewrite filter_In, in_map_iff. unfold under. split.
    + intros ((( k & n) & <- & Hin) & Hs). split; [|exact Hs].
      apply list_elem_of_In, elem_of_map_to_list in Hin. cbn. eauto.
    + intros ((n & Hq) & Hs). split; [|exact Hs].
      exists (q, n). split; [reflexivity|].
      apply list_elem_of_In, elem_of_map_to_list. exact Hq.
Qed.

Lemma cleanupFramesDir_ok f dir w :
  (forall p, f p = None) ->
  let out := VideoUtils.cleanupFramesDir f dir w in
  fst out = inr tt
  /\ forall q, files (snd out) !! q = if under dir q then None else files w !! q.
Proof.
  intros Hf. cbv zeta. unfold VideoUtils.cleanupFramesDir, Eff.try_catch, Eff.bind,
    Eff.readdirSync.
  destruct (readdir_listing dir (files w)) as (Hnd & Hin).
  set (l := List.filter _ _) in *.
  destruct (unlinkAll_ok f l Hf w Hnd) as (w' & Hrun & Hgone & Hframe).
  { intros p Hp. apply Hin in Hp. tauto. }
  rewrite Hrun. cbn [Eff.log Eff.emit fst snd files].
  split; [reflexivity|]. intros q.
  destruct (under dir q) eqn:Hu.
  - destruct (files w !! q) as [n|] eqn:Hq.
    + apply Hgone, Hin. eauto.
    + rewrite Hframe; [exact Hq|]. intros H. apply Hin in H as ((? & H) & _). congruence.
  - apply Hframe. intros H. apply Hin in H as (_ & H). congruence.
Qed.

(** ** The analysis of the frames *)




Lemma bind_Date_now {B} clock (k : Z -> Eff.M B) w :
  Eff.bind (Eff.Date_now clock) k w
  = k (clock (clock_reads w))
      {| files := files w; clock_reads := S (clock_reads w); trace := trace w |}.
Proof. reflexivity. Qed.

Lemma bind_log {B} level msg (k : unit -> Eff.M B) w :
  Eff.bind (Eff.log level msg) k w
  = k tt {| files := files w; clock_reads := clock_reads w;
            trace := trace w ++ [EvLog level msg] |}.
Proof. reflexivity. Qed.

Lemma analyzeVideoContent_cleans parse parse_analysis env videoPath options w :
  (forall p, VideoUtils.unlinkError env p = None) ->
  forall q,
    files (snd (VideoUtils.analyzeVideoContent parse parse_analysis env videoPath options w))
      !! q
    = if under (framesDir env w) q then None else files w !! q.
Proof.
  intros Hunlink q. unfold VideoUtils.analyzeVideoContent.
  rewrite bind_Date_now, bind_log, bind_Date_now. cbn [clock_reads].
  fold (framesDir env w). set (dir := framesDir env w).
  set (J := fun m : gmap string N => forall q, under dir q = false -> m !! q = files w !! q).
  assert (Hc : forall f, closedAt J (VideoUtils.framePath dir f)).
  { intros f m Hm. pose proof (framePath_under dir f (framesDir_nonempty env w)) as Hu.
    split.
    - intros n q' Hq'. rewrite lookup_insert_ne by congruence. apply Hm, Hq'.
    - intros q' Hq'. rewrite lookup_delete_ne by congruence. apply Hm, Hq'. }
  unfold Eff.finally.
  match goal with
  | |- context [Eff.bind ?m ?k ?W] =>
      assert (Hk : keeps J (Eff.bind m k));
      [ repeat first [ apply keeps_extractFrames, Hc | apply keeps_analyzeFrames
                     | apply keeps_summarize | keeps_step ]
      | specialize (Hk W (fun _ _ => eq_refl)); destruct (Eff.bind m k W) as [rb wb] ]
  end.
  all: try (intros w0 Hw0; exact Hw0).
  cbn [snd] in Hk.
  destruct (cleanupFramesDir_ok (VideoUtils.unlinkError env) dir wb Hunlink) as (Hr & Hfiles).
  destruct (VideoUtils.cleanupFramesDir _ dir wb) as [[e|u] w2]; cbn [fst snd] in *;
    [discriminate Hr|].
  rewrite Hfiles. destruct (under dir q) eqn:Hu; [reflexivity | apply Hk, Hu].
Qed.





(** X2.  A request that is refused before the temporary paths are made (no
    body, no usable url, no API key) leaves the disk as it was, makes no
    download, extraction, upload or chat call, and is answered once, with
    an error body. *)
Theorem refused_request_calls_nothing parse env req w :
  requestPaths env req w = None ->
  files (snd (Route.transcribe parse env req w)) = files w
  /\ exists evs,
       trace (snd (Route.transcribe parse env req w)) = trace w ++ evs
       /\ Forall (fun e => outsideCall e = false) evs
       /\ exists status error message url,
            responses evs = [EvRespond status (BodyError error message url)].
Proof. apply transcribe_refused_early. Qed.

Lemma refused_request_calls_nothing_witness :
  files (Scenario.run (Scenario.env None 0 0) "") = ∅.
Proof.
  exact (proj1 (refused_request_calls_nothing Scenario.parser (Scenario.env None 0 0)
                  (Scenario.request "") Scenario.start eq_refl)).
Defined.

(** X3.  Whatever the outside does, the handler changes no file other than
    its two temporary paths; a request that is refused before they are
    made changes no file at all. *)
Theorem handler_touches_only_its_temp_files parse env req w :
  sameOutside (tempPaths env req w) (files w)
    (files (snd (Route.transcribe parse env req w))).
Proof. apply transcribe_frame. Qed.







(** X20.  When no deletion is refused, [analyzeVideoContent] leaves no file
    below its frames directory, whether it returns or raises, and
    changes no file outside it. *)
Theorem video_analysis_cleans_its_directory parse parse_analysis env videoPath options w :
  (forall p, VideoUtils.unlinkError env p = None) ->
  forall q,
    files (snd (VideoUtils.analyzeVideoContent parse parse_analysis env videoPath options w))
      !! q
    = if under (framesDir env w) q then None else files w !! q.
Proof. apply analyzeVideoContent_cleans. Qed.

Lemma video_analysis_cleans_its_directory_witness :
  files (snd (VideoUtils.analyzeVideoContent Scenario.parser VideoScenario.parse_analysis
                VideoScenario.env "/videos/talk.mp4" VideoScenario.options Scenario.start))
    !! "/tmp/video-frames-1700000000001-6789ab/frame_0_0.0s.jpg"%string
  = None.
Proof.
  exact (video_analysis_cleans_its_directory Scenario.parser VideoScenario.parse_analysis
           VideoScenario.env "/videos/talk.mp4" VideoScenario.options Scenario.start
           (fun _ => eq_refl)
           "/tmp/video-frames-1700000000001-6789ab/frame_0_0.0s.jpg"%string).
Defined.

(** Two requests one millisecond apart get different input and output paths,
    even with the same random draw. *)
Lemma temp_paths_do_not_collide_witness :
  FileUtils.inputPath (FileUtils.createTempPaths "/tmp" 1700000000000 [1; 2; 3; 4; 5; 6; 7])
  <> FileUtils.inputPath (FileUtils.createTempPaths "/tmp" 1700000000001 [1; 2; 3; 4; 5; 6; 7])
  /\ FileUtils.outputPath (FileUtils.createTempPaths "/tmp" 1700000000000 [1; 2; 3; 4; 5; 6; 7])
     <> FileUtils.outputPath
          (FileUtils.createTempPaths "/tmp" 1700000000001 [1; 2; 3; 4; 5; 6; 7]).
Proof.
  apply (proj2 temp_paths_do_not_collide "/tmp"%string 1700000000000%Z 1700000000001%Z
           [1; 2; 3; 4; 5; 6; 7] [1; 2; 3; 4; 5; 6; 7]); lia.
Defined.

(** An .mp3 path served as audio/mpeg is audio for both copies of the
    classifier. *)
Lemma legacy_classifier_takes_every_download_as_audio_witness :
  LegacyAudioUtils.isAudioFile "/music/song.MP3" (Some "audio/mpeg"%string) = true.
Proof.
  apply (proj2 legacy_classifier_takes_every_download_as_audio
           "/music/song.MP3"%string (Some "audio/mpeg"%string)).
  - vm_compute. discriminate.
  - vm_compute. reflexivity.
  - vm_compute. reflexivity.
Defined.

(** A successful extraction of a stored video writes the output and then
    raises the ReferenceError. *)
Lemma legacy_extraction_never_returns_witness :
  let w := {| files := {[ "/tmp/input.webm"%string := 1000%N ]};
              clock_reads := 0; trace := [] |} in
  let out := LegacyAudioUtils.extractAudioFromVideo (fun _ => 0%Z)
               (AudioUtils.ExtractOk 400%N) "/tmp/input.webm" "/tmp/output.mp3" "ffmpeg" w in
  fst out = inl (Error "outputSizeMB is not defined")
  /\ files (snd out) = <[ "/tmp/output.mp3"%string := 400%N ]> (files w).
Proof.
  apply (proj2 legacy_extraction_never_returns (fun _ => 0%Z) 400%N
           "/tmp/input.webm"%string "/tmp/output.mp3"%string "ffmpeg"%string
           {| files := {[ "/tmp/input.webm"%string := 1000%N ]};
              clock_reads := 0; trace := [] |} 1000%N).
  - apply lookup_singleton_eq.
  - discriminate.
Defined.
